(** * go-opensky-api: the state-vector decoding layer

    A shallow embedding of the decoding functions of the OpenSky client
    (package [opensky]: [parseState], [parseStatesResponse],
    [jsonNumberToInt], [jsonNumberArrayToIntArray] and
    [UnixTime.UnmarshalJSON]) together with the parts of Go's [time] and
    [strconv] packages they call, followed by the properties of the
    decoder.

    Conventions.
    - Go's [int64] and [int] (64 bits on the platforms modelled here) are
      [Z] with the wrap-around written out ([wrap64]).
    - Go's [float64] is Rocq's primitive binary64 [float].
    - A Go function with results [(x T, err error)] returns the pair
      [(x, err)] with [err : option error]; [None] is Go's [nil] error.
    - A nullable pointer [*T] is [option T]; a [nil] slice is the empty list.
*)

From Stdlib Require Import ZArith List String Ascii Bool Lia.
From Stdlib Require Import Floats.
Import ListNotations.

Set Warnings "-inexact-float,-register-all".

Local Open Scope string_scope.
Local Open Scope Z_scope.

(** ** Machine integers *)

Definition int64_min : Z := - 2 ^ 63.
Definition int64_max : Z := 2 ^ 63 - 1.

Definition in_int64 (z : Z) : bool := (int64_min <=? z) && (z <=? int64_max).

(** Two's-complement wrap-around of signed 64-bit arithmetic. *)
Definition wrap64 (z : Z) : Z := (z + 2 ^ 63) mod 2 ^ 64 - 2 ^ 63.

(** ** Conversion of a float64 to an integer

    Go: "When converting a floating-point number to an integer, the fraction
    is discarded (truncation towards zero)", and when the result type cannot
    represent the value "the conversion succeeds but the result value is
    implementation-dependent".  A finite binary64 number is
    [(-1)^s * m * 2^e]; we write it as the fraction [SF_num / SF_den]. *)

Definition SF_num (x : spec_float) : Z :=
  match x with
  | S754_finite s m e =>
      let n := Z.pos m * 2 ^ Z.max e 0 in if s then - n else n
  | _ => 0
  end.

Definition SF_den (x : spec_float) : Z :=
  match x with
  | S754_finite _ _ e => 2 ^ Z.max (- e) 0
  | _ => 1
  end.

Definition SF_is_finite (x : spec_float) : bool :=
  match x with
  | S754_zero _ | S754_finite _ _ _ => true
  | S754_infinity _ | S754_nan => false
  end.

(** The integer obtained by discarding the fraction: [Z.quot] rounds toward
    zero. *)
Definition truncate_toward_zero (x : spec_float) : Z :=
  Z.quot (SF_num x) (SF_den x).

(** The result of converting an unrepresentable operand (NaN, an infinity, or
    a magnitude beyond 64 bits).  On amd64 the conversion instruction
    (CVTTSD2SQ) yields the "integer indefinite" value [0x8000000000000000]. *)
Definition int64_indefinite : Z := int64_min.

(** The float [f] with its fraction discarded, as a mathematical integer. *)
Definition float64_trunc (f : float) : Z := truncate_toward_zero (Prim2SF f).

(** [f] is a number whose integer part fits a signed 64-bit integer. *)
Definition int64_representable (f : float) : bool :=
  SF_is_finite (Prim2SF f) && in_int64 (float64_trunc f).

(** Go's [int64(f)] for [f float64]. *)
Definition float64_to_int64 (f : float) : Z :=
  if int64_representable f then float64_trunc f else int64_indefinite.

(** Go's [int(f)] for [f float64]; [int] is 64 bits wide. *)
Definition float64_to_int (f : float) : Z := float64_to_int64 f.

(** ** Dynamically typed values

    A Go [interface{}] value is a dynamic type together with a value of that
    type.  The universe of dynamic types is open; [Value] covers the types
    that [encoding/json] produces when decoding into [interface{}] ([nil],
    [string], [float64], [bool], [[]interface{}], [map[string]interface{}])
    and the further types the repository's tests hand to the decoder ([int],
    [[]float64], [[]int]). *)

Inductive Value : Type :=
| VNil
| VString (s : string)
| VFloat64 (f : float)
| VBool (b : bool)
| VInt (n : Z)
| VSlice (l : list Value)
| VMap (m : list (string * Value))
| VFloat64Slice (l : list float)
| VIntSlice (l : list Z).

(** Type assertions [v.(T)] in their two-result form: [Some x] when the
    dynamic type of [v] is [T], [None] when [ok] is false. *)

Definition as_string (v : Value) : option string :=
  match v with VString s => Some s | _ => None end.

Definition as_float64 (v : Value) : option float :=
  match v with VFloat64 f => Some f | _ => None end.

Definition as_bool (v : Value) : option bool :=
  match v with VBool b => Some b | _ => None end.

Definition as_float64_slice (v : Value) : option (list float) :=
  match v with VFloat64Slice l => Some l | _ => None end.

(** [v == nil] for an interface value. *)
Definition is_nil (v : Value) : bool :=
  match v with VNil => true | _ => false end.

(** Indexing [s[k]]; every use below is guarded by the length check of
    [parseState], so the default is never returned there. *)
Definition index (s : list Value) (k : nat) : Value := nth k s VNil.

(** ** Go's time package (the part the client uses) *)

Module time.

(** [*Location]: [nil] stands for UTC, [Local] for the system zone. *)
Inductive Location : Type := Local.

(** [time.Time] without a monotonic clock reading: [wall] holds the
    nanoseconds, [ext] the seconds since January 1, year 1. *)
Record Time : Type := mkTime { wall : Z; ext : Z; loc : option Location }.

(** The zero value [time.Time{}]. *)
Definition zero : Time := mkTime 0 0 None.

Definition unixToInternal : Z :=
  (1969 * 365 + 1969 / 4 - 1969 / 100 + 1969 / 400) * 86400.
Definition internalToUnix : Z := - unixToInternal.

Definition unixTime (sec nsec : Z) : Time :=
  mkTime nsec (wrap64 (sec + unixToInternal)) (Some Local).

(** [time.Unix(sec, nsec)]. *)
Definition Unix (sec nsec : Z) : Time :=
  if (nsec <? 0) || (1000000000 <=? nsec) then
    let n := Z.quot nsec 1000000000 in
    let sec := wrap64 (sec + n) in
    let nsec := wrap64 (nsec - wrap64 (n * 1000000000)) in
    if nsec <? 0
    then unixTime (wrap64 (sec - 1)) (wrap64 (nsec + 1000000000))
    else unixTime sec nsec
  else unixTime sec nsec.

Definition sec (t : Time) : Z := ext t.
Definition nsec (t : Time) : Z := wall t.

(** [t.Unix()]: seconds since January 1, 1970 UTC. *)
Definition Time_Unix (t : Time) : Z := wrap64 (sec t + internalToUnix).

(** [t.IsZero()]. *)
Definition IsZero (t : Time) : bool := (sec t =? 0) && (nsec t =? 0).

(** [t.Equal(u)]: the same instant, whatever the location. *)
Definition Equal (t u : Time) : bool :=
  (sec t =? sec u) && (nsec t =? nsec u).

End time.

(** ** time.go *)

Record UnixTime : Type := mkUnixTime { Time : time.Time }.

Definition newUnixTime (sec : Z) : UnixTime := mkUnixTime (time.Unix sec 0).

Definition newUnixTimeP (sec : Z) : option UnixTime :=
  Some (mkUnixTime (time.Unix sec 0)).

(** ** Go's strconv package: ParseInt at base 10 and bit size 64 *)

Module strconv.

Inductive Err : Type := ErrSyntax | ErrRange.

(** [*NumError]: the failing function, the input and the reason. *)
Record NumError : Type :=
  mkNumError { Func : string; Num : string; Reason : Err }.

Definition syntaxError (fn str : string) : NumError :=
  mkNumError fn str ErrSyntax.
Definition rangeError (fn str : string) : NumError :=
  mkNumError fn str ErrRange.

Definition maxUint64 : Z := 2 ^ 64 - 1.

(** [lower(c)]: [c | ('x' - 'X')]. *)
Definition lower (c : Z) : Z := Z.lor c 32.

Definition byte_of (c : ascii) : Z := Z.of_N (N_of_ascii c).

(** The digit loop of [ParseUint(s, 10, 64)]; [n] is the accumulator, a
    [uint64].  The underscore case needs base 0 and never applies. *)
Fixpoint ParseUint_loop (s : string) (n : Z) : Z * option Err :=
  match s with
  | EmptyString => (n, None)
  | String a rest =>
      let c := byte_of a in
      let cutoff := maxUint64 / 10 + 1 in
      let maxVal := maxUint64 in
      let digit :=
        if (48 <=? c) && (c <=? 57) then Some (c - 48)
        else if (97 <=? lower c) && (lower c <=? 122)
             then Some (lower c - 97 + 10)
             else None in
      match digit with
      | None => (0, Some ErrSyntax)
      | Some d =>
          if 10 <=? d then (0, Some ErrSyntax)
          else if cutoff <=? n then (maxVal, Some ErrRange)
          else
            let n := (n * 10) mod 2 ^ 64 in
            let n1 := (n + d) mod 2 ^ 64 in
            if (n1 <? n) || (maxVal <? n1) then (maxVal, Some ErrRange)
            else ParseUint_loop rest n1
      end
  end.

Definition ParseUint (s : string) : Z * option NumError :=
  match s with
  | EmptyString => (0, Some (syntaxError "ParseUint" s))
  | _ =>
      match ParseUint_loop s 0 with
      | (n, None) => (n, None)
      | (n, Some ErrSyntax) => (n, Some (syntaxError "ParseUint" s))
      | (n, Some ErrRange) => (n, Some (rangeError "ParseUint" s))
      end
  end.

(** [ParseInt(s, 10, 64)]. *)
Definition ParseInt (s0 : string) : Z * option NumError :=
  match s0 with
  | EmptyString => (0, Some (syntaxError "ParseInt" s0))
  | String a rest =>
      let neg := Ascii.eqb a "-" in
      let s := if Ascii.eqb a "+" || neg then rest else s0 in
      let cutoff := 2 ^ 63 in
      match ParseUint s with
      | (_, Some (mkNumError _ _ ErrSyntax)) =>
          (0, Some (syntaxError "ParseInt" s0))
      | (un, _) =>
          if negb neg && (cutoff <=? un)
          then (cutoff - 1, Some (rangeError "ParseInt" s0))
          else if neg && (cutoff <? un)
          then (- cutoff, Some (rangeError "ParseInt" s0))
          else
            let n := wrap64 un in
            (if neg then wrap64 (- n) else n, None)
      end
  end.

End strconv.

(** [(t *UnixTime) UnmarshalJSON(s []byte) error]: the receiver is threaded
    through; it is left as it was when the literal is rejected. *)
Definition UnmarshalJSON (t : UnixTime) (s : string)
    : UnixTime * option strconv.NumError :=
  let raw := s in
  if String.eqb raw "null" then (mkUnixTime time.zero, None)
  else
    match strconv.ParseInt raw with
    | (_, Some err) => (t, Some err)
    | (unixTimestamp, None) => (mkUnixTime (time.Unix unixTimestamp 0), None)
    end.

(** ** opensky.go: errors

    Every error of the decoder is built by [fmt.Errorf] from a fixed format
    string; a constructor stands for the format and carries its operands. *)

Inductive error : Type :=
| (** "invalid state object at position %v: response contains %v values,
      expected 17" *)
  ErrStateLength (i : Z) (n : nat)
| (** "invalid <field> value at position %d: %v" *)
  ErrInvalidValue (field : string) (i : Z) (v : Value)
| (** "invalid <field> value at position %d: %w" *)
  ErrInvalidWrapped (field : string) (i : Z) (cause : error)
| (** "couldn't parse %v as number" *)
  ErrNotNumber (v : Value)
| (** "couldn't parse %v as number array" *)
  ErrNotNumberArray (v : Value).

(** ** opensky.go: data model *)

Definition PositionSource : Type := Z.

Definition ADSB : PositionSource := 0.
Definition ASTERIX : PositionSource := 1.
Definition MLAT : PositionSource := 2.
Definition FLARM : PositionSource := 3.

Record State : Type := mkState {
  ICAO24 : string;
  CallSign : string;
  OriginCountry : string;
  TimePosition : option UnixTime;
  LastContact : UnixTime;
  Longitude : option float;
  Latitude : option float;
  GeoAltitude : option float;
  OnGround : bool;
  Velocity : option float;
  Heading : option float;
  VerticalRate : option float;
  Sensors : list Z;
  BarometricAltitude : option float;
  Squawk : string;
  Spi : bool;
  StatePositionSource : PositionSource
}.

(** The zero value [State{}]. *)
Definition zeroState : State :=
  mkState EmptyString EmptyString EmptyString None (mkUnixTime time.zero)
          None None None false None None None [] None EmptyString false 0.

Record unstructuredStateResponse : Type := mkRawResponse {
  rawTime : Z;
  rawStates : list (list Value)
}.

Record GetStatesResponse : Type := mkResponse {
  respTime : time.Time;
  respStates : list State
}.

(** ** opensky.go: coercions *)

Definition jsonNumberToInt (val : Value) : Z * option error :=
  match as_float64 val with
  | None => (0, Some (ErrNotNumber val))
  | Some fVal => (float64_to_int64 fVal, None)
  end.

Definition jsonNumberArrayToIntArray (val : Value) : list Z * option error :=
  match as_float64_slice val with
  | None => ([], Some (ErrNotNumberArray val))
  | Some aVal => (fold_left (fun a v => (a ++ [float64_to_int v])%list) aVal [], None)
  end.

(** ** opensky.go: the record decoder

    [parseState] has the named results [(state State, err error)]: [state]
    keeps its zero value until the assignment that ends the function, so every
    early [return] hands back [State{}] with the error. *)

Definition fail (e : error) : State * option error := (zeroState, Some e).

(** [x, ok := v.(T); if !ok { err = e; return }]. *)
Notation "'asserting' x ':=' a 'else' e 'in' k" :=
  (match a with Some x => k | None => fail e end)
  (at level 10, x name, a at level 100, e at level 100, k at level 200,
   only parsing).

(** [x, err = f(v); if err != nil { err = w(err); return }]. *)
Notation "'calling' x ':=' a 'wrap' w 'in' k" :=
  (match a with (x, None) => k | (_, Some cause) => fail (w cause) end)
  (at level 10, x name, a at level 100, w at level 100, k at level 200,
   only parsing).

(** [var x *float64; if raw, ok := v.(float64); ok { x = &raw }]. *)
Definition optional_float64 (v : Value) : option float := as_float64 v.

Definition parseState (s : list Value) (i : Z) : State * option error :=
  if (List.length s <? 17)%nat then fail (ErrStateLength i (List.length s)) else
  (* icao24 *)
  asserting icao24 := as_string (index s 0)
    else ErrInvalidValue "icao24" i (index s 0) in
  (* callsign *)
  asserting callsign :=
      (if is_nil (index s 1) then Some EmptyString else as_string (index s 1))
    else ErrInvalidValue "callsign" i (index s 1) in
  (* origin_country *)
  asserting originCountry := as_string (index s 2)
    else ErrInvalidValue "origin_country" i (index s 2) in
  (* time_position *)
  calling timePosition :=
      (if is_nil (index s 3) then (None, None)
       else let '(rawTimePosition, err) := jsonNumberToInt (index s 3) in
            (Some (newUnixTime rawTimePosition), err))
    wrap ErrInvalidWrapped "time_position" i in
  (* last_contact *)
  calling lastContact := jsonNumberToInt (index s 4)
    wrap ErrInvalidWrapped "last_contact" i in
  (* longitude, latitude, baro_altitude *)
  let lon := optional_float64 (index s 5) in
  let lat := optional_float64 (index s 6) in
  let baroAltitude := optional_float64 (index s 7) in
  (* on_ground *)
  asserting onGround := as_bool (index s 8)
    else ErrInvalidValue "on_ground" i (index s 8) in
  (* velocity, true_track, vertical_rate *)
  let velocity := optional_float64 (index s 9) in
  let trueTrack := optional_float64 (index s 10) in
  let verticalRate := optional_float64 (index s 11) in
  (* sensors *)
  calling sensors :=
      (if is_nil (index s 12) then ([], None)
       else jsonNumberArrayToIntArray (index s 12))
    wrap ErrInvalidWrapped "sensors" i in
  (* geo_altitude *)
  let geoAltitude := optional_float64 (index s 13) in
  (* squawk *)
  asserting squawk :=
      (if is_nil (index s 14) then Some EmptyString else as_string (index s 14))
    else ErrInvalidValue "squawk" i (index s 14) in
  (* spi *)
  asserting spi := as_bool (index s 15)
    else ErrInvalidValue "spi" i (index s 15) in
  (* position_source *)
  calling positionSource := jsonNumberToInt (index s 16)
    wrap ErrInvalidWrapped "position_source" i in
  (* Set state values *)
  ({| ICAO24 := icao24;
      CallSign := callsign;
      OriginCountry := originCountry;
      TimePosition := timePosition;
      LastContact := newUnixTime lastContact;
      Longitude := lon;
      Latitude := lat;
      GeoAltitude := geoAltitude;
      OnGround := onGround;
      Velocity := velocity;
      Heading := trueTrack;
      VerticalRate := verticalRate;
      Sensors := sensors;
      BarometricAltitude := baroAltitude;
      Squawk := squawk;
      Spi := spi;
      StatePositionSource := positionSource |}, None).

(** ** opensky.go: the batch decoder

    [parseStatesResponse] has the named results [(response, err)]: the loop
    appends to [response.States] as it goes, and the bare [return] on failure
    hands back [response] as it stands at that moment. *)

Fixpoint parseStates_loop (states : list (list Value)) (i : Z)
    (response : GetStatesResponse) : GetStatesResponse * option error :=
  match states with
  | [] => (response, None)
  | s :: rest =>
      match parseState s i with
      | (_, Some err) => (response, Some err)
      | (state, None) =>
          parseStates_loop rest (i + 1)
            (mkResponse (respTime response) (respStates response ++ [state])%list)
      end
  end.

Definition parseStatesResponse (rawResponse : unstructuredStateResponse)
    : GetStatesResponse * option error :=
  let response := mkResponse (time.Unix (rawTime rawResponse) 0) [] in
  parseStates_loop (rawStates rawResponse) 0 response.

(** ** opensky.go: the serials parameter of GetOwnStates

    [GetOwnStates] joins the serial numbers of the receivers into one query
    value with the loop
    [for i, s := range serials { if i > 0 { serialQuery += "," };
    serialQuery += fmt.Sprintf("%v", s) }].  The loop is modelled with its
    index and its accumulator; the formatting of one [int] is left open. *)

Section SerialQuery.

Variable Sprintf_v : Z -> string.

Fixpoint serialQuery_loop (serials : list Z) (i : nat) (serialQuery : string)
    : string :=
  match serials with
  | [] => serialQuery
  | s :: rest =>
      let serialQuery :=
        if (0 <? i)%nat then serialQuery ++ "," else serialQuery in
      serialQuery_loop rest (S i) (serialQuery ++ Sprintf_v s)
  end.

Definition serialQuery (serials : list Z) : string :=
  serialQuery_loop serials 0 EmptyString.

End SerialQuery.

(** ** Vocabulary of the properties *)

(** The record [s] with the value at position [k] replaced by [v]. *)
Fixpoint update (k : nat) (v : Value) (s : list Value) : list Value :=
  match s, k with
  | [], _ => []
  | _ :: rest, O => v :: rest
  | x :: rest, S k' => x :: update k' v rest
  end.

(** What the decoder demands of the values it checks. *)
Definition is_string (v : Value) : bool :=
  match v with VString _ => true | _ => false end.
Definition is_float64 (v : Value) : bool :=
  match v with VFloat64 _ => true | _ => false end.
Definition is_bool (v : Value) : bool :=
  match v with VBool _ => true | _ => false end.
Definition is_float64_slice (v : Value) : bool :=
  match v with VFloat64Slice _ => true | _ => false end.

(** The positions [parseState] checks, in the order it checks them, each with
    the test a value must pass there: the required fields and the optional
    fields that are validated when present. *)
Definition checked_fields : list (nat * (Value -> bool)) :=
  [ (0%nat, is_string);
    (1%nat, fun v => is_nil v || is_string v);
    (2%nat, is_string);
    (3%nat, fun v => is_nil v || is_float64 v);
    (4%nat, is_float64);
    (8%nat, is_bool);
    (12%nat, fun v => is_nil v || is_float64_slice v);
    (14%nat, fun v => is_nil v || is_string v);
    (15%nat, is_bool);
    (16%nat, is_float64) ].

(** Every checked field of [s] passes its test. *)
Definition checked_fields_valid (s : list Value) : bool :=
  forallb (fun c => snd c (index s (fst c))) checked_fields.

(** Every checked field of [s] at a position before [k] passes its test. *)
Definition valid_before (k : nat) (s : list Value) : bool :=
  forallb (fun c => (k <=? fst c)%nat || snd c (index s (fst c))) checked_fields.

(** The positions of the optional float fields that are dropped when they do
    not hold a float, and the field of [State] each one fills. *)
Definition permissive_fields : list nat := [5; 6; 7; 9; 10; 11; 13]%nat.

Definition permissive_field (k : nat) (st : State) : option float :=
  match k with
  | 5%nat => Longitude st
  | 6%nat => Latitude st
  | 7%nat => BarometricAltitude st
  | 9%nat => Velocity st
  | 10%nat => Heading st
  | 11%nat => VerticalRate st
  | 13%nat => GeoAltitude st
  | _ => None
  end.

(** The positions of the optional fields that are validated when present,
    the type each one demands, the error a value of another type raises, and
    what "absent" means in the decoded state. *)
Definition validated_fields : list nat := [3; 12; 14]%nat.

Definition validated_check (k : nat) : Value -> bool :=
  match k with
  | 3%nat => is_float64
  | 12%nat => is_float64_slice
  | _ => is_string
  end.

(** [v] is an array of floating-point numbers, in either of the forms a Go
    value can take: a slice of floats ([[]float64]), or a slice of
    dynamically typed values ([[]interface{}], the form the JSON decoder
    produces) whose elements are all floats. *)
Definition is_float_array (v : Value) : bool :=
  match v with
  | VFloat64Slice _ => true
  | VSlice l => forallb is_float64 l
  | _ => false
  end.

(** The type a validated optional field is meant to have: a number, an array
    of floats, a string. *)
Definition validated_type (k : nat) : Value -> bool :=
  match k with
  | 3%nat => is_float64
  | 12%nat => is_float_array
  | _ => is_string
  end.

Definition validated_error (k : nat) (i : Z) (v : Value) : error :=
  match k with
  | 3%nat => ErrInvalidWrapped "time_position" i (ErrNotNumber v)
  | 12%nat => ErrInvalidWrapped "sensors" i (ErrNotNumberArray v)
  | _ => ErrInvalidValue "squawk" i v
  end.

Definition validated_absent (k : nat) (st : State) : Prop :=
  match k with
  | 3%nat => TimePosition st = None
  | 12%nat => Sensors st = []
  | _ => Squawk st = EmptyString
  end.

(** The state a record decodes to when its checked fields are valid, field by
    field. *)
Definition state_of_fields (s : list Value) : State :=
  {| ICAO24 := match index s 0 with VString a => a | _ => EmptyString end;
     CallSign := match index s 1 with VString a => a | _ => EmptyString end;
     OriginCountry := match index s 2 with VString a => a | _ => EmptyString end;
     TimePosition :=
       match index s 3 with
       | VFloat64 f => Some (newUnixTime (float64_to_int64 f))
       | _ => None
       end;
     LastContact :=
       newUnixTime
         (match index s 4 with VFloat64 f => float64_to_int64 f | _ => 0 end);
     Longitude := as_float64 (index s 5);
     Latitude := as_float64 (index s 6);
     GeoAltitude := as_float64 (index s 13);
     OnGround := match index s 8 with VBool b => b | _ => false end;
     Velocity := as_float64 (index s 9);
     Heading := as_float64 (index s 10);
     VerticalRate := as_float64 (index s 11);
     Sensors :=
       match index s 12 with
       | VFloat64Slice l => map float64_to_int l
       | _ => []
       end;
     BarometricAltitude := as_float64 (index s 7);
     Squawk := match index s 14 with VString a => a | _ => EmptyString end;
     Spi := match index s 15 with VBool b => b | _ => false end;
     StatePositionSource :=
       match index s 16 with VFloat64 f => float64_to_int64 f | _ => 0 end |}.

(** The record index an error of [parseState] reports, when its format has
    one. *)
Definition error_index (e : error) : option Z :=
  match e with
  | ErrStateLength i _ => Some i
  | ErrInvalidValue _ i _ => Some i
  | ErrInvalidWrapped _ i _ => Some i
  | ErrNotNumber _ => None
  | ErrNotNumberArray _ => None
  end.

(** The error [e] with the record index [j] in place of its own. *)
Definition reindex (j : Z) (e : error) : error :=
  match e with
  | ErrStateLength _ n => ErrStateLength j n
  | ErrInvalidValue field _ v => ErrInvalidValue field j v
  | ErrInvalidWrapped field _ cause => ErrInvalidWrapped field j cause
  | ErrNotNumber v => ErrNotNumber v
  | ErrNotNumberArray v => ErrNotNumberArray v
  end.

(** The error [e] as it reads when the record it is about sits [d] places
    further in the batch. *)
Definition shift_index (d : Z) (e : error) : error :=
  match error_index e with
  | Some i => reindex (i + d) e
  | None => e
  end.

(** The positions [parseState] checks. *)
Definition checked_positions : list nat := map fst checked_fields.

(** The test the value at the checked position [k] must pass. *)
Definition field_test (k : nat) (v : Value) : bool :=
  match find (fun c => (fst c =? k)%nat) checked_fields with
  | Some c => snd c v
  | None => true
  end.

(** The error [parseState] raises at index [i] when the value [v] at the
    checked position [k] fails its test: the field name of the message, and
    the cause it wraps where the field goes through a coercion. *)
Definition field_error (k : nat) (i : Z) (v : Value) : error :=
  match k with
  | 0%nat => ErrInvalidValue "icao24" i v
  | 1%nat => ErrInvalidValue "callsign" i v
  | 2%nat => ErrInvalidValue "origin_country" i v
  | 3%nat => ErrInvalidWrapped "time_position" i (ErrNotNumber v)
  | 4%nat => ErrInvalidWrapped "last_contact" i (ErrNotNumber v)
  | 8%nat => ErrInvalidValue "on_ground" i v
  | 12%nat => ErrInvalidWrapped "sensors" i (ErrNotNumberArray v)
  | 14%nat => ErrInvalidValue "squawk" i v
  | 15%nat => ErrInvalidValue "spi" i v
  | _ => ErrInvalidWrapped "position_source" i (ErrNotNumber v)
  end.

(** The optional fields for which the decoder cannot tell null from an empty
    value, each with that empty value: the call sign and the squawk with the
    empty string, the sensors with the empty slice of floats. *)
Definition empty_values : list (nat * Value) :=
  [ (1%nat, VString EmptyString);
    (12%nat, VFloat64Slice []);
    (14%nat, VString EmptyString) ].

(** The record [s] decodes (at some index, hence at every index). *)
Definition decodes (s : list Value) : bool :=
  match snd (parseState s 0) with
  | None => true
  | Some _ => false
  end.

(** The longest prefix of a batch made of records that decode. *)
Fixpoint valid_prefix (states : list (list Value)) : list (list Value) :=
  match states with
  | [] => []
  | s :: rest => if decodes s then s :: valid_prefix rest else []
  end.

(** Decimal digits, and the number a string of digits denotes. *)
Definition is_digit (a : ascii) : bool :=
  (48 <=? strconv.byte_of a) && (strconv.byte_of a <=? 57).

Fixpoint all_digits (s : string) : bool :=
  match s with
  | EmptyString => true
  | String a rest => is_digit a && all_digits rest
  end.

Fixpoint digits_value_from (s : string) (acc : Z) : Z :=
  match s with
  | EmptyString => acc
  | String a rest => digits_value_from rest (acc * 10 + (strconv.byte_of a - 48))
  end.

Definition digits_value (s : string) : Z := digits_value_from s 0.

(** A literal without its leading sign, if it has one. *)
Definition unsigned_part (raw : string) : string :=
  match raw with
  | String a rest => if Ascii.eqb a "+" || Ascii.eqb a "-" then rest else raw
  | EmptyString => raw
  end.

Definition is_negative (raw : string) : bool :=
  match raw with
  | String a _ => Ascii.eqb a "-"
  | EmptyString => false
  end.

(** The integer a decimal literal denotes: an optional sign, then digits. *)
Definition literal_value (raw : string) : Z :=
  let v := digits_value (unsigned_part raw) in
  if is_negative raw then - v else v.

(** [raw] is a decimal literal: an optional sign followed by one digit at
    least, and nothing else. *)
Definition is_decimal_literal (raw : string) : bool :=
  match unsigned_part raw with
  | EmptyString => false
  | body => all_digits body
  end.

(** ** Records of the test suite *)

(** The double quote character. *)
Definition dquote : ascii := "034"%char.

(** The JSON string literal whose content is [string], quotes included. *)
Definition json_string_literal : string :=
  String dquote ("string" ++ String dquote EmptyString).

(** A record with every optional value filled. *)
Definition record_full : list Value :=
  [ VString "ae1fa7"; VString "TALON71 "; VString "United States";
    VFloat64 1624891429; VFloat64 1624891429;
    VFloat64 (-116.2121); VFloat64 43.5431; VFloat64 914.4;
    VBool false;
    VFloat64 17.95; VFloat64 117.3; VFloat64 (-1.3);
    VFloat64Slice [1000%float; 1042%float];
    VFloat64 952.5; VString "0753"; VBool false; VFloat64 0 ].

(** A record with every optional value null but the position timestamp. *)
Definition record_sparse : list Value :=
  [ VString "a50c7c"; VNil; VString "United States";
    VFloat64 1624891429; VFloat64 1624891429;
    VNil; VNil; VNil;
    VBool false;
    VNil; VNil; VNil;
    VNil;
    VNil; VNil; VBool false; VFloat64 0 ].

(** [record_sparse] with a string where the [spi] flag belongs. *)
Definition record_invalid_spi : list Value :=
  update 15 (VString "invalid_spi") record_sparse.

(** The state [record_sparse] decodes to. *)
Definition state_sparse : State :=
  {| ICAO24 := "a50c7c";
     CallSign := EmptyString;
     OriginCountry := "United States";
     TimePosition := newUnixTimeP 1624891429;
     LastContact := newUnixTime 1624891429;
     Longitude := None;
     Latitude := None;
     GeoAltitude := None;
     OnGround := false;
     Velocity := None;
     Heading := None;
     VerticalRate := None;
     Sensors := [];
     BarometricAltitude := None;
     Squawk := EmptyString;
     Spi := false;
     StatePositionSource := ADSB |}.

(** * Properties *)

(** ** Records as lists of at least 17 values *)

Lemma record_17 (s : list Value) :
  (17 <= List.length s)%nat ->
  exists x0 x1 x2 x3 x4 x5 x6 x7 x8 x9 x10 x11 x12 x13 x14 x15 x16 rest,
    s = x0 :: x1 :: x2 :: x3 :: x4 :: x5 :: x6 :: x7 :: x8 :: x9 :: x10
          :: x11 :: x12 :: x13 :: x14 :: x15 :: x16 :: rest.
Proof.
  intros H.
  do 17 (destruct s as [|? s]; [simpl in H; lia|]).
  repeat eexists.
Qed.

(** Splits a record of at least 17 values into its fields. *)
Ltac fields s H :=
  let E := fresh "E" in
  destruct (record_17 s H)
    as (?x0 & ?x1 & ?x2 & ?x3 & ?x4 & ?x5 & ?x6 & ?x7 & ?x8 & ?x9 & ?x10
        & ?x11 & ?x12 & ?x13 & ?x14 & ?x15 & ?x16 & ?rest & E);
  subst s.

Lemma length_check_passes (x0 x1 x2 x3 x4 x5 x6 x7 x8 x9 x10 x11 x12 x13 x14
    x15 x16 : Value) (rest : list Value) :
  (List.length (x0 :: x1 :: x2 :: x3 :: x4 :: x5 :: x6 :: x7 :: x8 :: x9
      :: x10 :: x11 :: x12 :: x13 :: x14 :: x15 :: x16 :: rest) <? 17)%nat
  = false.
Proof. apply Nat.ltb_ge. simpl. lia. Qed.

(** The decoder reads the first 17 values only. *)
Lemma parseState_firstn (s : list Value) (i : Z) :
  (17 <= List.length s)%nat -> parseState s i = parseState (firstn 17 s) i.
Proof.
  intros H. fields s H.
  unfold parseState.
  rewrite length_check_passes.
  reflexivity.
Qed.

(** An error of [parseState] on a record of at least 17 values is never the
    length error. *)
Lemma parseState_no_length_error (s : list Value) (i j : Z) (n : nat) :
  (17 <= List.length s)%nat ->
  snd (parseState s i) <> Some (ErrStateLength j n).
Proof.
  intros H. fields s H.
  unfold parseState, fail.
  rewrite length_check_passes.
  repeat match goal with
         | |- context [match ?a with _ => _ end] => destruct a
         end; simpl; discriminate.
Qed.

(** ** The shape check *)

Lemma parseState_length_error (s : list Value) (i : Z) :
  (List.length s <? 17)%nat = true ->
  parseState s i = (zeroState, Some (ErrStateLength i (List.length s))).
Proof. intros H. unfold parseState. now rewrite H. Qed.

(** C9. A record of fewer than 17 values is rejected, whatever it holds: the
    result is the zero [State] with the length error, which reports the record
    index [i] and the actual number of values (the expected 17 is part of the
    message).  No field is looked at. *)
Theorem parseState_short_record (s : list Value) (i : Z) :
  (List.length s < 17)%nat ->
  parseState s i = (zeroState, Some (ErrStateLength i (List.length s))).
Proof.
  intros H. apply parseState_length_error. now apply Nat.ltb_lt.
Qed.

Lemma parseState_short_record_witness :
  parseState [VString "ae1fa7"; VInt 666; VBool true] 4
  = (zeroState, Some (ErrStateLength 4 3)).
Proof.
  apply (parseState_short_record [VString "ae1fa7"; VInt 666; VBool true] 4).
  simpl. lia.
Defined.

(** ** Values past the seventeenth *)

(** C10. A record of more than 17 values is not rejected for its length, and
    its result, state and error alike, is that of its first 17 values at the
    same index; so two records of at least 17 values that agree on their first
    17 values decode alike. *)
Theorem parseState_extra_ignored (s : list Value) (i : Z) :
  (17 < List.length s)%nat ->
  parseState s i = parseState (firstn 17 s) i
  /\ (forall j n, snd (parseState s i) <> Some (ErrStateLength j n))
  /\ (forall s', (17 <= List.length s')%nat -> firstn 17 s' = firstn 17 s ->
                 parseState s' i = parseState s i).
Proof.
  intros H. split; [|split].
  - apply parseState_firstn. lia.
  - intros j n. apply parseState_no_length_error. lia.
  - intros s' H' E.
    rewrite (parseState_firstn s') by assumption.
    rewrite (parseState_firstn s) by lia.
    now rewrite E.
Qed.

Lemma parseState_extra_ignored_witness :
  parseState (record_sparse ++ [VString "extra"; VInt 1])%list 2
  = parseState record_sparse 2.
Proof.
  destruct (parseState_extra_ignored
              (record_sparse ++ [VString "extra"; VInt 1])%list 2) as [E _].
  - simpl. lia.
  - exact E.
Defined.

(** ** Decoding a record field by field *)

Lemma fold_append_map {A B : Type} (g : A -> B) (l : list A) (acc : list B) :
  fold_left (fun a v => (a ++ [g v])%list) l acc = (acc ++ map g l)%list.
Proof.
  revert acc. induction l as [|x l IH]; intros acc; simpl.
  - now rewrite app_nil_r.
  - rewrite IH, <- app_assoc. reflexivity.
Qed.

Lemma jsonNumberArrayToIntArray_slice (l : list float) :
  jsonNumberArrayToIntArray (VFloat64Slice l) = (map float64_to_int l, None).
Proof. unfold jsonNumberArrayToIntArray. simpl. now rewrite fold_append_map. Qed.

(** Unfolds [parseState] on a record split into its fields. *)
Ltac open_record :=
  unfold parseState, fail;
  rewrite length_check_passes;
  cbn [index nth].

(** Case analysis on the dynamic type of one field, dropping the cases the
    hypotheses exclude. *)
Ltac case_field x :=
  destruct x;
  try rewrite jsonNumberArrayToIntArray_slice;
  cbn [as_string as_float64 as_bool as_float64_slice is_nil is_string
       is_float64 is_bool is_float64_slice jsonNumberToInt
       jsonNumberArrayToIntArray orb andb fst snd]
    in *;
  try discriminate.

Ltac rejected := right; split; [reflexivity | eexists; reflexivity].

(** A record of at least 17 values either has all its checked fields valid
    and decodes to [state_of_fields], or has an invalid checked field and is
    rejected with the zero state. *)
Lemma parseState_cases (s : list Value) (i : Z) :
  (17 <= List.length s)%nat ->
  (checked_fields_valid s = true
   /\ parseState s i = (state_of_fields s, None))
  \/ (checked_fields_valid s = false
      /\ exists e, parseState s i = (zeroState, Some e)).
Proof.
  intros H. fields s H. clear H.
  unfold checked_fields_valid, checked_fields, state_of_fields.
  cbn [forallb fst snd index nth].
  open_record.
  case_field x0; try rejected.
  case_field x1; try rejected;
    (case_field x2; try rejected;
     case_field x3; try rejected;
     (case_field x4; try rejected;
      case_field x8; try rejected;
      case_field x12; try rejected;
      (case_field x14; try rejected;
       (case_field x15; try rejected;
        case_field x16; try rejected;
        left; split; reflexivity)))).
Qed.

Lemma parseState_valid (s : list Value) (i : Z) :
  (17 <= List.length s)%nat -> checked_fields_valid s = true ->
  parseState s i = (state_of_fields s, None).
Proof.
  intros H V.
  destruct (parseState_cases s i H) as [[_ E]|[V' _]]; [exact E|congruence].
Qed.

Lemma parseState_invalid (s : list Value) (i : Z) :
  (17 <= List.length s)%nat -> checked_fields_valid s = false ->
  exists e, parseState s i = (zeroState, Some e).
Proof.
  intros H V.
  destruct (parseState_cases s i H) as [[V' _]|[_ E]]; [congruence|exact E].
Qed.

(** [parseState] never returns a state next to an error. *)
Lemma parseState_error_zero (s : list Value) (i : Z) (st : State) (e : error) :
  parseState s i = (st, Some e) -> st = zeroState.
Proof.
  intros E.
  destruct (Nat.ltb_spec (List.length s) 17) as [L|L].
  - rewrite parseState_length_error in E by now apply Nat.ltb_lt.
    congruence.
  - destruct (parseState_cases s i L) as [[_ E']|[_ [e' E']]]; congruence.
Qed.

(** The first checked field that is invalid decides the error. *)

Lemma time_position_error (s : list Value) (i : Z) :
  (17 <= List.length s)%nat -> valid_before 3 s = true ->
  is_nil (index s 3) = false -> is_float64 (index s 3) = false ->
  parseState s i
  = (zeroState,
     Some (ErrInvalidWrapped "time_position" i (ErrNotNumber (index s 3)))).
Proof.
  intros H V N T. fields s H. clear H.
  unfold valid_before, checked_fields in V.
  cbn [forallb fst snd index nth Nat.leb] in V, N, T |- *.
  open_record.
  case_field x0; case_field x1; case_field x2; case_field x3; reflexivity.
Qed.

Lemma sensors_error (s : list Value) (i : Z) :
  (17 <= List.length s)%nat -> valid_before 12 s = true ->
  is_nil (index s 12) = false -> is_float64_slice (index s 12) = false ->
  parseState s i
  = (zeroState,
     Some (ErrInvalidWrapped "sensors" i (ErrNotNumberArray (index s 12)))).
Proof.
  intros H V N T. fields s H. clear H.
  unfold valid_before, checked_fields in V.
  cbn [forallb fst snd index nth Nat.leb] in V, N, T |- *.
  open_record.
  case_field x0; case_field x1; case_field x2; case_field x3;
    case_field x4; case_field x8; case_field x12; reflexivity.
Qed.

Lemma squawk_error (s : list Value) (i : Z) :
  (17 <= List.length s)%nat -> valid_before 14 s = true ->
  is_nil (index s 14) = false -> is_string (index s 14) = false ->
  parseState s i = (zeroState, Some (ErrInvalidValue "squawk" i (index s 14))).
Proof.
  intros H V N T. fields s H. clear H.
  unfold valid_before, checked_fields in V.
  cbn [forallb fst snd index nth Nat.leb] in V, N, T |- *.
  open_record.
  case_field x0; case_field x1; case_field x2; case_field x3;
    case_field x4; case_field x8; case_field x12; case_field x14;
    reflexivity.
Qed.

(** Splits the membership of a position in a literal list into its cases. *)
Ltac positions K :=
  simpl in K;
  repeat (destruct K as [K|K]; [subst|]); try contradiction.

Lemma first_invalid_field_error (s : list Value) (i : Z) (k : nat) :
  (17 <= List.length s)%nat -> In k checked_positions ->
  valid_before k s = true -> field_test k (index s k) = false ->
  parseState s i = (zeroState, Some (field_error k i (index s k))).
Proof.
  intros H K V T. fields s H. clear H.
  unfold valid_before, checked_fields in V.
  unfold checked_positions, checked_fields in K.
  positions K;
    unfold field_test, checked_fields in T;
    cbn [find forallb fst snd index nth Nat.leb Nat.eqb] in V, T |- *;
    open_record;
    case_field x0; try reflexivity;
    case_field x1; try reflexivity;
    case_field x2; try reflexivity;
    case_field x3; try reflexivity;
    case_field x4; try reflexivity;
    case_field x8; try reflexivity;
    case_field x12; try reflexivity;
    case_field x14; try reflexivity;
    case_field x15; try reflexivity;
    case_field x16; reflexivity.
Qed.

Lemma validated_type_check (k : nat) (v : Value) :
  validated_type k v = false -> validated_check k v = false.
Proof.
  unfold validated_type, validated_check.
  do 13 (destruct k as [|k]; try (intros H; exact H)).
  destruct v; simpl; intros H; first [reflexivity | discriminate].
Qed.

(** ** Optional floats: dropped when they are not floats *)

Lemma parseState_permissive_null (s : list Value) (i : Z) (k : nat) (v : Value) :
  (17 <= List.length s)%nat -> In k permissive_fields ->
  as_float64 v = None ->
  parseState (update k v s) i = parseState (update k VNil s) i.
Proof.
  intros H K F. fields s H. clear H.
  simpl in K.
  repeat (destruct K as [K|K]; [subst k|]); try contradiction;
    cbn [update]; open_record; unfold optional_float64; rewrite F;
    reflexivity.
Qed.

(** C2. Take a record of 17 values whose checked fields are valid, and put at
    the position of an optional float field (5 longitude, 6 latitude,
    7 barometric altitude, 9 velocity, 10 heading, 11 vertical rate,
    13 geometric altitude) a value that is neither null nor a float.  The
    record decodes, that field of the state is absent, and the state is the
    one obtained with null at that position. *)
Theorem permissive_optional_dropped (s : list Value) (i : Z) (k : nat)
    (v : Value) :
  List.length s = 17%nat -> In k permissive_fields ->
  is_nil v = false -> as_float64 v = None ->
  checked_fields_valid s = true ->
  exists st,
    parseState (update k v s) i = (st, None)
    /\ permissive_field k st = None
    /\ parseState (update k VNil s) i = (st, None).
Proof.
  intros L K _ F V.
  assert (H : (17 <= List.length s)%nat) by lia.
  assert (E : parseState (update k VNil s) i
              = (state_of_fields (update k VNil s), None)).
  { apply parseState_valid.
    - fields s H. simpl in K.
      repeat (destruct K as [K|K]; [subst k|]); try contradiction;
        simpl; lia.
    - fields s H. simpl in K.
      repeat (destruct K as [K|K]; [subst k|]); try contradiction; exact V. }
  exists (state_of_fields (update k VNil s)).
  rewrite (parseState_permissive_null s i k v H K F).
  split; [exact E|split; [|exact E]].
  fields s H. simpl in K.
  repeat (destruct K as [K|K]; [subst k|]); try contradiction; reflexivity.
Qed.

Lemma permissive_optional_dropped_witness :
  exists st,
    parseState (update 5 (VString "n/a") record_full) 0 = (st, None)
    /\ permissive_field 5 st = None
    /\ parseState (update 5 VNil record_full) 0 = (st, None).
Proof.
  apply (permissive_optional_dropped record_full 0 5 (VString "n/a"));
    first [reflexivity | simpl; tauto].
Defined.

(** ** Optional fields that are validated when present *)

(** C3, as the code has it.  For each of time_position (3), sensors (12) and
    squawk (14) of a record of at least 17 values: when the field is null and
    the checked fields are valid, the record decodes and the field is absent
    in the state; when the field is neither null nor of its type (a number,
    an array of floats, a string), the record is rejected, and the error
    names the field, the record index and the value whenever the fields
    checked before it are valid. *)
Theorem validated_optional_policy (s : list Value) (i : Z) (k : nat) :
  (17 <= List.length s)%nat -> In k validated_fields ->
  (index s k = VNil -> checked_fields_valid s = true ->
   exists st, parseState s i = (st, None) /\ validated_absent k st)
  /\ (is_nil (index s k) = false -> validated_type k (index s k) = false ->
      (exists e, parseState s i = (zeroState, Some e))
      /\ (valid_before k s = true ->
          parseState s i
          = (zeroState, Some (validated_error k i (index s k))))).
Proof.
  intros H K. split.
  - intros N V. exists (state_of_fields s).
    split; [now apply parseState_valid|].
    simpl in K.
    repeat (destruct K as [K|K]; [subst k|]); try contradiction;
      unfold validated_absent, state_of_fields; cbn [TimePosition Sensors Squawk];
      rewrite N; reflexivity.
  - intros N T. apply validated_type_check in T. split.
    + apply parseState_invalid; [assumption|].
      fields s H. simpl in K.
      unfold checked_fields_valid, checked_fields.
      cbn [forallb fst snd index nth] in *.
      repeat (destruct K as [K|K]; [subst k|]); try contradiction;
        cbn [index nth validated_check] in N, T; rewrite N, T;
        cbn [orb andb]; rewrite ?andb_false_r; reflexivity.
    + intros V. simpl in K.
      repeat (destruct K as [K|K]; [subst k|]); try contradiction.
      * now apply time_position_error.
      * now apply sensors_error.
      * now apply squawk_error.
Qed.

Lemma validated_optional_policy_witness :
  (exists st, parseState record_sparse 1 = (st, None) /\ Squawk st = EmptyString)
  /\ parseState (update 14 (VInt 666) record_sparse) 1
     = (zeroState, Some (ErrInvalidValue "squawk" 1 (VInt 666))).
Proof.
  split.
  - apply (validated_optional_policy record_sparse 1 14);
      first [reflexivity | simpl; lia | simpl; tauto].
  - apply (validated_optional_policy (update 14 (VInt 666) record_sparse) 1 14);
      first [reflexivity | simpl; lia | simpl; tauto].
Defined.

(** C3, as stated, fails: in a record of 17 values whose squawk is a number
    and whose address is a number too, the error names the address, not the
    squawk. *)
Lemma validated_field_error_names_earlier_field :
  let s := update 0 (VInt 1) (update 14 (VInt 666) record_sparse) in
  List.length s = 17%nat
  /\ is_nil (index s 14) = false
  /\ is_string (index s 14) = false
  /\ parseState s 0 = (zeroState, Some (ErrInvalidValue "icao24" 0 (VInt 1)))
  /\ snd (parseState s 0)
     <> Some (ErrInvalidValue "squawk" 0 (index s 14)).
Proof. cbv zeta. repeat split. vm_compute. discriminate. Qed.

(** ** The position source *)

(** C4, as the decoder has it.  The position source is an open integer.  In
    a record of at least 17 values whose fields checked before the last one
    are valid: when the last field is a float the record decodes and its
    position source is the converted integer (the float truncated toward
    zero when that fits 64 bits), whether or not it is one of the four codes;
    when the last field is anything but a float the record is rejected with
    the position_source error. *)
Theorem position_source_open (s : list Value) (i : Z) :
  (17 <= List.length s)%nat -> valid_before 16 s = true ->
  (forall f, index s 16 = VFloat64 f ->
     exists st,
       parseState s i = (st, None)
       /\ StatePositionSource st = float64_to_int64 f
       /\ (int64_representable f = true ->
           StatePositionSource st = float64_trunc f))
  /\ (is_float64 (index s 16) = false ->
      parseState s i
      = (zeroState,
         Some (ErrInvalidWrapped "position_source" i
                 (ErrNotNumber (index s 16))))).
Proof.
  intros H V. split.
  - intros f E. exists (state_of_fields s). split; [|split].
    + apply parseState_valid; [assumption|].
      fields s H.
      unfold checked_fields_valid, valid_before, checked_fields in *.
      cbn [forallb fst snd index nth Nat.leb orb] in *.
      rewrite E. cbn [is_float64].
      rewrite !andb_true_r in *. exact V.
    + unfold state_of_fields. cbn [StatePositionSource]. now rewrite E.
    + intros R. unfold state_of_fields. cbn [StatePositionSource].
      rewrite E. unfold float64_to_int64. now rewrite R.
  - intros T.
    apply (first_invalid_field_error s i 16 H); [simpl; tauto|exact V|exact T].
Qed.

Lemma position_source_open_witness :
  (exists st,
     parseState (update 16 (VFloat64 7) record_sparse) 0 = (st, None)
     /\ StatePositionSource st = float64_to_int64 7
     /\ (int64_representable 7 = true -> StatePositionSource st = 7))
  /\ parseState (update 16 (VString "ADSB") record_sparse) 0
     = (zeroState,
        Some (ErrInvalidWrapped "position_source" 0
                (ErrNotNumber (VString "ADSB")))).
Proof.
  split.
  - destruct (position_source_open (update 16 (VFloat64 7) record_sparse) 0)
      as [A _]; [simpl; lia|reflexivity|].
    apply (A 7%float). reflexivity.
  - destruct (position_source_open
                (update 16 (VString "ADSB") record_sparse) 0)
      as [_ R]; [simpl; lia|reflexivity|].
    apply R. reflexivity.
Defined.

(** C4, as stated, fails: a record whose position source is 7, outside the
    four codes, is accepted with that code. *)
Lemma position_source_out_of_range_accepted :
  let s := update 16 (VFloat64 7) record_sparse in
  List.length s = 17%nat
  /\ jsonNumberToInt (index s 16) = (7, None)
  /\ ~ In 7 [ADSB; ASTERIX; MLAT; FLARM]
  /\ snd (parseState s 0) = None
  /\ StatePositionSource (fst (parseState s 0)) = 7.
Proof.
  cbv zeta. repeat split; try reflexivity.
  unfold ADSB, ASTERIX, MLAT, FLARM. simpl. intuition discriminate.
Qed.

(** ** The happy path *)

(** The record of the test suite with every optional value filled. *)
Example parseState_record_full :
  parseState record_full 0
  = ({| ICAO24 := "ae1fa7";
        CallSign := "TALON71 ";
        OriginCountry := "United States";
        TimePosition := newUnixTimeP 1624891429;
        LastContact := newUnixTime 1624891429;
        Longitude := Some (-116.2121)%float;
        Latitude := Some 43.5431%float;
        GeoAltitude := Some 952.5%float;
        OnGround := false;
        Velocity := Some 17.95%float;
        Heading := Some 117.3%float;
        VerticalRate := Some (-1.3)%float;
        Sensors := [1000; 1042];
        BarometricAltitude := Some 914.4%float;
        Squawk := "0753";
        Spi := false;
        StatePositionSource := ADSB |}, None).
Proof. vm_compute. reflexivity. Qed.

(** A timestamp built from epoch seconds gives them back. *)
Lemma Time_Unix_newUnixTime (sec : Z) :
  in_int64 sec = true -> time.Time_Unix (Time (newUnixTime sec)) = sec.
Proof.
  unfold in_int64, int64_min, int64_max. intros H.
  apply andb_true_iff in H. destruct H as [Hl Hu].
  apply Z.leb_le in Hl, Hu.
  unfold newUnixTime, time.Unix, time.Time_Unix, time.unixTime, time.sec,
    time.internalToUnix. cbn [Time time.ext Z.ltb Z.leb Z.compare orb].
  unfold wrap64.
  replace ((sec + time.unixToInternal + 2 ^ 63) mod 2 ^ 64 - 2 ^ 63
           + - time.unixToInternal + 2 ^ 63)
    with ((sec + time.unixToInternal + 2 ^ 63) mod 2 ^ 64
          - time.unixToInternal) by ring.
  rewrite Zminus_mod_idemp_l.
  replace (sec + time.unixToInternal + 2 ^ 63 - time.unixToInternal)
    with (sec + 2 ^ 63) by ring.
  rewrite Z.mod_small by lia. ring.
Qed.

(** ** Numeric coercion *)

(** Discarding the fraction rounds toward zero: the magnitude of the result is
    the integer part of the magnitude of the number, and the result never has
    the opposite sign. *)
Lemma truncate_toward_zero_spec (x : spec_float) :
  let n := SF_num x in
  let d := SF_den x in
  let t := truncate_toward_zero x in
  0 < d
  /\ Z.abs t * d <= Z.abs n < (Z.abs t + 1) * d
  /\ (0 <= n -> 0 <= t) /\ (n <= 0 -> t <= 0).
Proof.
  cbv zeta. unfold truncate_toward_zero.
  assert (D : 0 < SF_den x).
  { destruct x; simpl; try lia; apply Z.pow_pos_nonneg; lia. }
  split; [exact D|].
  set (n := SF_num x). set (d := SF_den x) in *.
  assert (A : Z.abs (Z.quot n d) = Z.abs n / d).
  { rewrite <- Z.quot_abs by lia. rewrite (Z.abs_eq d) by lia.
    apply Z.quot_div_nonneg; lia. }
  split; [|split].
  - rewrite A. split.
    + rewrite Z.mul_comm. apply Z.mul_div_le. exact D.
    + rewrite Z.mul_comm. apply (Z.mul_succ_div_gt (Z.abs n) d D).
  - intros N. apply Z.quot_pos; lia.
  - intros N.
    replace n with (- (- n)) by ring.
    rewrite Z.quot_opp_l by lia.
    assert (0 <= Z.quot (- n) d) by (apply Z.quot_pos; lia). lia.
Qed.

(** The conversion always yields a signed 64-bit integer. *)
Lemma float64_to_int64_range (f : float) : in_int64 (float64_to_int64 f) = true.
Proof.
  unfold float64_to_int64.
  destruct (int64_representable f) eqn:R.
  - unfold int64_representable in R. apply andb_true_iff in R. tauto.
  - reflexivity.
Qed.

Lemma float64_to_int64_representable (f : float) :
  int64_representable f = true -> float64_to_int64 f = float64_trunc f.
Proof. unfold float64_to_int64. now intros ->. Qed.

(** C7, as the code has it.  [jsonNumberToInt] succeeds exactly on floats.  On
    a float it returns the converted integer, which is the float truncated
    toward zero whenever that integer fits 64 bits; on a value of any other
    type it returns zero and the error that carries the value. *)
Theorem jsonNumberToInt_contract (v : Value) :
  (snd (jsonNumberToInt v) = None <-> exists f, v = VFloat64 f)
  /\ (forall f, v = VFloat64 f ->
      jsonNumberToInt v = (float64_to_int64 f, None)
      /\ (int64_representable f = true ->
          jsonNumberToInt v = (float64_trunc f, None)))
  /\ (is_float64 v = false -> jsonNumberToInt v = (0, Some (ErrNotNumber v))).
Proof.
  split; [|split].
  - split.
    + destruct v; simpl; try discriminate. eauto.
    + intros [f ->]. reflexivity.
  - intros f ->. split; [reflexivity|].
    intros R. unfold jsonNumberToInt. simpl.
    now rewrite float64_to_int64_representable.
  - destruct v; simpl; try discriminate; reflexivity.
Qed.

Lemma jsonNumberToInt_contract_witness :
  jsonNumberToInt (VFloat64 2.99) = (2, None)
  /\ jsonNumberToInt (VString "foo") = (0, Some (ErrNotNumber (VString "foo"))).
Proof.
  split.
  - destruct (jsonNumberToInt_contract (VFloat64 2.99)) as (_ & F & _).
    destruct (F 2.99%float eq_refl) as [_ T]. apply T. reflexivity.
  - destruct (jsonNumberToInt_contract (VString "foo")) as (_ & _ & E).
    apply E. reflexivity.
Defined.

(** The cases of the test suite. *)
Example jsonNumberToInt_examples :
  jsonNumberToInt (VFloat64 42) = (42, None)
  /\ jsonNumberToInt (VFloat64 (-1)) = (-1, None)
  /\ jsonNumberToInt (VFloat64 0) = (0, None)
  /\ jsonNumberToInt (VFloat64 2.99) = (2, None)
  /\ jsonNumberToInt (VString "foo") = (0, Some (ErrNotNumber (VString "foo")))
  /\ jsonNumberToInt (VBool true) = (0, Some (ErrNotNumber (VBool true)))
  /\ jsonNumberToInt (VFloat64Slice [1; 3; 5]%float)
     = (0, Some (ErrNotNumber (VFloat64Slice [1; 3; 5]%float)))
  /\ jsonNumberToInt VNil = (0, Some (ErrNotNumber VNil)).
Proof. repeat split. Qed.

(** C7, as stated, fails: the float 1e19 is a number, its truncation is the
    integer 10^19, and [jsonNumberToInt] succeeds on it with another
    integer. *)
Lemma jsonNumberToInt_1e19_not_truncated :
  SF_is_finite (Prim2SF 1e19) = true
  /\ float64_trunc 1e19 = 10 ^ 19
  /\ in_int64 (float64_trunc 1e19) = false
  /\ snd (jsonNumberToInt (VFloat64 1e19)) = None
  /\ in_int64 (fst (jsonNumberToInt (VFloat64 1e19))) = true
  /\ fst (jsonNumberToInt (VFloat64 1e19)) <> float64_trunc 1e19.
Proof. repeat split. vm_compute. discriminate. Qed.

(** ** Array coercion *)

(** C8, as the code has it.  On a slice of floats ([[]float64])
    [jsonNumberArrayToIntArray] succeeds and returns the converted integers in
    order, each of which is the float truncated toward zero whenever that
    integer fits 64 bits.  It succeeds on arrays of floats only: on every
    value that is not an array of floats, whichever form the array takes, it
    returns no integers and the error that carries the value.  Nothing is
    said here of an array of floats held as a slice of dynamically typed
    values. *)
Theorem jsonNumberArrayToIntArray_contract (v : Value) :
  (forall l, v = VFloat64Slice l ->
     jsonNumberArrayToIntArray v = (map float64_to_int l, None)
     /\ (forallb int64_representable l = true ->
         jsonNumberArrayToIntArray v = (map float64_trunc l, None)))
  /\ (snd (jsonNumberArrayToIntArray v) = None -> is_float_array v = true)
  /\ (is_float_array v = false ->
      jsonNumberArrayToIntArray v = ([], Some (ErrNotNumberArray v))).
Proof.
  split; [|split].
  - intros l ->. rewrite jsonNumberArrayToIntArray_slice.
    split; [reflexivity|].
    intros R. f_equal. apply map_ext_in. intros f F.
    apply float64_to_int64_representable.
    rewrite forallb_forall in R. now apply R.
  - destruct v; simpl; try discriminate. reflexivity.
  - destruct v; simpl; try discriminate; reflexivity.
Qed.

Lemma jsonNumberArrayToIntArray_contract_witness :
  jsonNumberArrayToIntArray (VFloat64Slice [42; 33; 12.95; -2.3]%float)
  = ([42; 33; 12; -2], None)
  /\ is_float_array (VFloat64Slice [1; 2]%float) = true
  /\ jsonNumberArrayToIntArray (VIntSlice [1; 2; 100; -100])
     = ([], Some (ErrNotNumberArray (VIntSlice [1; 2; 100; -100])))
  /\ jsonNumberArrayToIntArray (VSlice [VString "foo"])
     = ([], Some (ErrNotNumberArray (VSlice [VString "foo"]))).
Proof.
  split; [|split; [|split]].
  - destruct (jsonNumberArrayToIntArray_contract
                (VFloat64Slice [42; 33; 12.95; -2.3]%float)) as (F & _ & _).
    destruct (F [42; 33; 12.95; -2.3]%float eq_refl) as [_ T].
    apply T. reflexivity.
  - destruct (jsonNumberArrayToIntArray_contract
                (VFloat64Slice [1; 2]%float)) as (_ & S & _).
    apply S. reflexivity.
  - destruct (jsonNumberArrayToIntArray_contract
                (VIntSlice [1; 2; 100; -100])) as (_ & _ & E).
    apply E. reflexivity.
  - destruct (jsonNumberArrayToIntArray_contract
                (VSlice [VString "foo"])) as (_ & _ & E).
    apply E. reflexivity.
Defined.

(** The cases of the test suite, and what the JSON decoder makes of an array
    of numbers: a slice of dynamically typed values, which is rejected as
    well. *)
Example jsonNumberArrayToIntArray_examples :
  jsonNumberArrayToIntArray (VFloat64Slice [1; 2; 100; -100]%float)
  = ([1; 2; 100; -100], None)
  /\ snd (jsonNumberArrayToIntArray (VFloat64 1)) <> None
  /\ snd (jsonNumberArrayToIntArray (VIntSlice [1; 2; 100; -100])) <> None
  /\ snd (jsonNumberArrayToIntArray (VString "foo")) <> None
  /\ snd (jsonNumberArrayToIntArray (VBool true)) <> None
  /\ snd (jsonNumberArrayToIntArray (VSlice [VString "foo"])) <> None
  /\ snd (jsonNumberArrayToIntArray (VSlice [VFloat64 42; VFloat64 33])) <> None.
Proof. repeat split; discriminate. Qed.

(** C8, as stated, fails: the slice holding the float 1e19 is an array of
    floats, the truncation of its element is 10^19, and the coercion succeeds
    on it with another integer. *)
Lemma jsonNumberArrayToIntArray_1e19_not_truncated :
  map float64_trunc [1e19%float] = [10 ^ 19]
  /\ forallb in_int64 (map float64_trunc [1e19%float]) = false
  /\ snd (jsonNumberArrayToIntArray (VFloat64Slice [1e19%float])) = None
  /\ forallb in_int64
       (fst (jsonNumberArrayToIntArray (VFloat64Slice [1e19%float]))) = true
  /\ fst (jsonNumberArrayToIntArray (VFloat64Slice [1e19%float]))
     <> map float64_trunc [1e19%float].
Proof. repeat split. vm_compute. discriminate. Qed.

(** ** The happy path, field by field *)

Lemma representable_in_int64 (f : float) :
  int64_representable f = true -> in_int64 (float64_trunc f) = true.
Proof.
  unfold int64_representable. intros R.
  apply andb_true_iff in R. tauto.
Qed.

(** C6, as the code has it.  Take a record of 17 values in which every field
    holds a value of its type, the sensors as a slice of floats, and in which
    the floats of the integer fields (the two timestamps, every sensor, the
    position source) truncate to integers that fit 64 bits.  It decodes, and
    every field of the state is the corresponding value: the strings,
    booleans and floats as they are, the two timestamps as the times whose
    epoch seconds are the truncated floats, the sensors as the truncated
    floats, in order, and the position source as the truncated float. *)
Theorem parseState_happy_path
    (icao24 callsign country squawk : string)
    (timePosition lastContact lon lat baro velocity heading verticalRate geo
       positionSource : float)
    (sensors : list float) (onGround spi : bool) (i : Z) :
  int64_representable timePosition = true ->
  int64_representable lastContact = true ->
  forallb int64_representable sensors = true ->
  int64_representable positionSource = true ->
  parseState
    [ VString icao24; VString callsign; VString country;
      VFloat64 timePosition; VFloat64 lastContact;
      VFloat64 lon; VFloat64 lat; VFloat64 baro;
      VBool onGround;
      VFloat64 velocity; VFloat64 heading; VFloat64 verticalRate;
      VFloat64Slice sensors;
      VFloat64 geo; VString squawk; VBool spi; VFloat64 positionSource ] i
  = ({| ICAO24 := icao24;
        CallSign := callsign;
        OriginCountry := country;
        TimePosition := Some (newUnixTime (float64_trunc timePosition));
        LastContact := newUnixTime (float64_trunc lastContact);
        Longitude := Some lon;
        Latitude := Some lat;
        GeoAltitude := Some geo;
        OnGround := onGround;
        Velocity := Some velocity;
        Heading := Some heading;
        VerticalRate := Some verticalRate;
        Sensors := map float64_trunc sensors;
        BarometricAltitude := Some baro;
        Squawk := squawk;
        Spi := spi;
        StatePositionSource := float64_trunc positionSource |}, None)
  /\ time.Time_Unix (Time (newUnixTime (float64_trunc timePosition)))
     = float64_trunc timePosition
  /\ time.Time_Unix (Time (newUnixTime (float64_trunc lastContact)))
     = float64_trunc lastContact.
Proof.
  intros Rtp Rlc Rs Rps.
  assert (Es : map float64_to_int sensors = map float64_trunc sensors).
  { apply map_ext_in. intros f F.
    apply float64_to_int64_representable.
    rewrite forallb_forall in Rs. now apply Rs. }
  split; [|split].
  - rewrite parseState_valid; [|simpl; lia|reflexivity].
    unfold state_of_fields. cbn [index nth as_float64].
    rewrite (float64_to_int64_representable timePosition Rtp),
      (float64_to_int64_representable lastContact Rlc),
      (float64_to_int64_representable positionSource Rps), Es.
    reflexivity.
  - apply Time_Unix_newUnixTime. now apply representable_in_int64.
  - apply Time_Unix_newUnixTime. now apply representable_in_int64.
Qed.

Lemma parseState_happy_path_witness :
  parseState record_full 0
  = ({| ICAO24 := "ae1fa7";
        CallSign := "TALON71 ";
        OriginCountry := "United States";
        TimePosition := Some (newUnixTime (float64_trunc 1624891429));
        LastContact := newUnixTime (float64_trunc 1624891429);
        Longitude := Some (-116.2121)%float;
        Latitude := Some 43.5431%float;
        GeoAltitude := Some 952.5%float;
        OnGround := false;
        Velocity := Some 17.95%float;
        Heading := Some 117.3%float;
        VerticalRate := Some (-1.3)%float;
        Sensors := map float64_trunc [1000%float; 1042%float];
        BarometricAltitude := Some 914.4%float;
        Squawk := "0753";
        Spi := false;
        StatePositionSource := float64_trunc 0 |}, None)
  /\ time.Time_Unix (Time (newUnixTime (float64_trunc 1624891429)))
     = float64_trunc 1624891429
  /\ time.Time_Unix (Time (newUnixTime (float64_trunc 1624891429)))
     = float64_trunc 1624891429.
Proof.
  apply (parseState_happy_path "ae1fa7" "TALON71 " "United States" "0753"
           1624891429 1624891429 (-116.2121) 43.5431 914.4 17.95 117.3 (-1.3)
           952.5 0 [1000%float; 1042%float] false false 0);
    reflexivity.
Defined.

(** C6, as stated, fails: in the record of the test suite with the float 1e19
    as last contact and as only sensor, every field holds a value of its
    type and the record decodes, but the last contact is not the time 10^19
    seconds after the epoch and the sensor is not the integer 10^19. *)
Lemma parseState_1e19_not_input :
  let s := update 4 (VFloat64 1e19)
             (update 12 (VFloat64Slice [1e19%float]) record_full) in
  List.length s = 17%nat
  /\ float64_trunc 1e19 = 10 ^ 19
  /\ snd (parseState s 0) = None
  /\ time.Time_Unix (Time (LastContact (fst (parseState s 0))))
     <> float64_trunc 1e19
  /\ Sensors (fst (parseState s 0)) <> map float64_trunc [1e19%float].
Proof.
  cbv zeta. repeat split; vm_compute; discriminate.
Qed.

(** ** The timestamp wrapper *)

Lemma ParseInt_rejects (a : ascii) (rest : string) :
  let c := strconv.byte_of a in
  c <> 43 -> c <> 45 -> (c < 48 \/ 57 < c) ->
  strconv.ParseInt (String a rest)
  = (0, Some (strconv.syntaxError "ParseInt" (String a rest))).
Proof.
  cbv zeta. intros P M D.
  assert (Ep : Ascii.eqb a "+" = false).
  { apply Ascii.eqb_neq. intros ->. now apply P. }
  assert (Em : Ascii.eqb a "-" = false).
  { apply Ascii.eqb_neq. intros ->. now apply M. }
  unfold strconv.ParseInt. rewrite Ep, Em. cbn [orb].
  unfold strconv.ParseUint. cbn [strconv.ParseUint_loop].
  assert (Ed : ((48 <=? strconv.byte_of a) && (strconv.byte_of a <=? 57)) = false).
  { apply andb_false_iff. rewrite Z.leb_gt, Z.leb_gt. lia. }
  rewrite Ed.
  destruct ((97 <=? strconv.lower (strconv.byte_of a))
            && (strconv.lower (strconv.byte_of a) <=? 122)) eqn:El;
    [|reflexivity].
  assert (Eb : (10 <=? strconv.lower (strconv.byte_of a) - 97 + 10) = true).
  { apply andb_true_iff in El. destruct El as [El _].
    apply Z.leb_le in El. apply Z.leb_le. lia. }
  now rewrite Eb.
Qed.

(** C5, as the code has it.  Decoding the literal null succeeds and yields the
    zero time, January 1 of year 1, for which [IsZero] holds; that is another
    value and another instant than the one the literal 0 decodes to, which is
    January 1, 1970.  Decoding a literal that opens a string, an object or an
    array fails with a syntax error and leaves the receiver as it was. *)
Theorem UnmarshalJSON_null_and_literals (t : UnixTime) :
  UnmarshalJSON t "null" = (mkUnixTime time.zero, None)
  /\ time.IsZero time.zero = true
  /\ time.Time_Unix time.zero = -62135596800
  /\ UnmarshalJSON t "0" = (newUnixTime 0, None)
  /\ time.Time_Unix (Time (newUnixTime 0)) = 0
  /\ time.Equal time.zero (Time (newUnixTime 0)) = false
  /\ (forall (a : ascii) (rest : string),
        In a [dquote; "{"%char; "["%char] ->
        UnmarshalJSON t (String a rest)
        = (t, Some (strconv.syntaxError "ParseInt" (String a rest)))).
Proof.
  repeat split.
  intros a rest A.
  assert (N : String.eqb (String a rest) "null" = false).
  { simpl in A. destruct A as [<-|[<-|[<-|[]]]]; reflexivity. }
  unfold UnmarshalJSON. rewrite N.
  rewrite ParseInt_rejects; [reflexivity| | |];
    simpl in A; destruct A as [<-|[<-|[<-|[]]]]; vm_compute;
    first [intro; discriminate | left; reflexivity | right; reflexivity].
Qed.

Lemma UnmarshalJSON_null_and_literals_witness :
  UnmarshalJSON (newUnixTime 5) json_string_literal
  = (newUnixTime 5,
     Some (strconv.syntaxError "ParseInt" json_string_literal)).
Proof.
  apply (UnmarshalJSON_null_and_literals (newUnixTime 5)).
  simpl. tauto.
Defined.

(** The cases of the test suite. *)
Example UnmarshalJSON_examples :
  UnmarshalJSON (mkUnixTime time.zero) "1624891429"
  = (mkUnixTime (time.Unix 1624891429 0), None)
  /\ snd (UnmarshalJSON (mkUnixTime time.zero) json_string_literal) <> None
  /\ UnmarshalJSON (mkUnixTime time.zero) "null"
     = (mkUnixTime time.zero, None)
  /\ snd (UnmarshalJSON (mkUnixTime time.zero) "{}") <> None.
Proof. repeat split; discriminate. Qed.

(** C5, as stated, fails: the values decoded from null and from the literal 0
    differ, as values and as instants. *)
Lemma UnmarshalJSON_null_differs_from_zero :
  let t := mkUnixTime time.zero in
  snd (UnmarshalJSON t "null") = None
  /\ snd (UnmarshalJSON t "0") = None
  /\ fst (UnmarshalJSON t "null") <> fst (UnmarshalJSON t "0")
  /\ time.Equal (Time (fst (UnmarshalJSON t "null")))
       (Time (fst (UnmarshalJSON t "0"))) = false
  /\ time.IsZero (Time (fst (UnmarshalJSON t "null"))) = true
  /\ time.IsZero (Time (fst (UnmarshalJSON t "0"))) = false
  /\ time.Time_Unix (Time (fst (UnmarshalJSON t "null"))) = -62135596800
  /\ time.Time_Unix (Time (fst (UnmarshalJSON t "0"))) = 0.
Proof. cbv zeta. repeat split. vm_compute. discriminate. Qed.

(** ** The batch decoder *)

(** Whether a record decodes, and to which state, does not depend on its
    index. *)
Lemma parseState_index (s : list Value) (i j : Z) :
  fst (parseState s i) = fst (parseState s j)
  /\ (snd (parseState s i) = None <-> snd (parseState s j) = None).
Proof.
  destruct (Nat.ltb_spec (List.length s) 17) as [L|L].
  - rewrite !parseState_length_error by now apply Nat.ltb_lt.
    simpl.
    split; [reflexivity|split; discriminate].
  - destruct (parseState_cases s i L) as [[V Ei]|[V [ei Ei]]];
      destruct (parseState_cases s j L) as [[V' Ej]|[V' [ej Ej]]];
      try congruence; rewrite Ei, Ej; simpl;
      (split; [reflexivity|split; intros; first [reflexivity|discriminate]]).
Qed.

(** The loop stops at the first record that fails: it returns the error of
    that record, decoded at its own index, together with the response as the
    loop has built it so far, which holds the states of the records before
    it. *)
Lemma parseStates_loop_first_failure (pre : list (list Value))
    (bad : list Value) (post : list (list Value)) (i : Z)
    (response : GetStatesResponse) (e : error) :
  Forall (fun s => snd (parseState s 0) = None) pre ->
  snd (parseState bad (i + Z.of_nat (List.length pre))) = Some e ->
  parseStates_loop (pre ++ bad :: post) i response
  = (mkResponse (respTime response)
       (respStates response ++ map (fun s => fst (parseState s 0)) pre),
     Some e).
Proof.
  revert i response. induction pre as [|s pre IH]; intros i response P B.
  - simpl in *. rewrite Z.add_0_r in B.
    destruct (parseState bad i) as [st [e'|]]; simpl in B; [|discriminate].
    inversion B; subst. rewrite app_nil_r. now destruct response.
  - inversion P as [|? ? Ps Ppre]; subst.
    simpl. destruct (parseState_index s i 0) as [Ef Es].
    apply Es in Ps.
    destruct (parseState s i) as [st [e'|]] eqn:E; simpl in Ps; [discriminate|].
    rewrite IH; [|assumption|].
    + simpl. rewrite <- Ef. simpl. now rewrite <- app_assoc.
    + replace (i + 1 + Z.of_nat (List.length pre))
        with (i + Z.of_nat (List.length (s :: pre)))
        by (simpl List.length; lia).
      exact B.
Qed.

(** When every record decodes, the states come back in the order of the
    records; an empty batch gives no states and no error. *)
Lemma parseStates_loop_all_valid (states : list (list Value)) (i : Z)
    (response : GetStatesResponse) :
  Forall (fun s => snd (parseState s 0) = None) states ->
  parseStates_loop states i response
  = (mkResponse (respTime response)
       (respStates response ++ map (fun s => fst (parseState s 0)) states),
     None).
Proof.
  revert i response. induction states as [|s states IH]; intros i response P.
  - simpl. rewrite app_nil_r. now destruct response.
  - inversion P as [|? ? Ps Prest]; subst.
    simpl. destruct (parseState_index s i 0) as [Ef Es].
    apply Es in Ps.
    destruct (parseState s i) as [st [e'|]] eqn:E; simpl in Ps; [discriminate|].
    rewrite IH by assumption. simpl. rewrite <- Ef. simpl.
    now rewrite <- app_assoc.
Qed.

(** When the records before a failing record all decode, the batch decoder
    returns the error of that record, decoded at its own position, and a
    response that holds the capture time and the states of the records before
    it; the records after it are not looked at. *)
Lemma parseStatesResponse_first_failure (t : Z) (pre : list (list Value))
    (bad : list Value) (post : list (list Value)) (e : error) :
  Forall (fun s => snd (parseState s 0) = None) pre ->
  snd (parseState bad (Z.of_nat (List.length pre))) = Some e ->
  parseStatesResponse (mkRawResponse t (pre ++ bad :: post))
  = (mkResponse (time.Unix t 0) (map (fun s => fst (parseState s 0)) pre),
     Some e).
Proof.
  intros P B. unfold parseStatesResponse. simpl.
  now rewrite (parseStates_loop_first_failure pre bad post 0 _ e).
Qed.

Example parseStatesResponse_empty :
  parseStatesResponse (mkRawResponse 0 [])
  = (mkResponse (time.Unix 0 0) [], None).
Proof. reflexivity. Qed.

(** C1, on the code.  The batch whose record 0 is valid and whose record 1
    has an invalid [spi] value comes back with the error of record 1, index 1,
    and with a response that holds the state of record 0. *)
Theorem parseStatesResponse_partial_states :
  parseStatesResponse
    (mkRawResponse 1624958210 [record_sparse; record_invalid_spi])
  = (mkResponse (time.Unix 1624958210 0) [state_sparse],
     Some (ErrInvalidValue "spi" 1 (VString "invalid_spi"))).
Proof. vm_compute. reflexivity. Qed.

(** * Further properties of the decoder *)

(** ** The record decoder, field by field *)

Lemma update_length (k : nat) (v : Value) (s : list Value) :
  List.length (update k v s) = List.length s.
Proof.
  revert k. induction s as [|x s IH]; intros k; destruct k; simpl;
    try reflexivity.
  now rewrite IH.
Qed.

(** Case analysis on every scrutinee of an unfolded [parseState]. *)
Ltac case_matches :=
  repeat match goal with
         | |- context [match ?a with _ => _ end] => destruct a
         end.

(** X1. [parseState] accepts a record exactly when it has at least 17 values and
    each checked field passes its test, whatever the values at the other
    positions; the state it returns is then [state_of_fields], field by field. *)
Theorem parseState_accepts_iff (s : list Value) (i : Z) :
  (snd (parseState s i) = None
   <-> (17 <= List.length s)%nat /\ checked_fields_valid s = true)
  /\ (snd (parseState s i) = None ->
      fst (parseState s i) = state_of_fields s).
Proof.
  destruct (Nat.ltb_spec (List.length s) 17) as [L|L].
  - rewrite parseState_length_error by now apply Nat.ltb_lt.
    simpl. split; [split|]; try discriminate. intros [H _]. lia.
  - destruct (parseState_cases s i L) as [[V E]|[V [e E]]]; rewrite E; simpl.
    + split; [split|]; auto.
    + split; [split|]; try discriminate. intros [_ H]. congruence.
Qed.

Lemma parseState_accepts_iff_witness :
  fst (parseState record_sparse 3) = state_of_fields record_sparse.
Proof.
  apply (parseState_accepts_iff record_sparse 3). reflexivity.
Defined.

(** X2. An error of [parseState] never comes with a state: every failing path
    returns the zero [State]. *)
Theorem parseState_error_without_state (s : list Value) (i : Z) :
  snd (parseState s i) <> None -> fst (parseState s i) = zeroState.
Proof.
  intros H. destruct (parseState s i) as [st [e|]] eqn:E; simpl in *.
  - now apply (parseState_error_zero s i st e).
  - contradiction.
Qed.

Lemma parseState_error_without_state_witness :
  fst (parseState record_invalid_spi 1) = zeroState.
Proof.
  apply (parseState_error_without_state record_invalid_spi 1).
  vm_compute. discriminate.
Defined.

(** X3. The decoder checks the fields in the order of their positions and stops
    at the first that fails: when the value at a checked position fails its test
    and the checked fields before it are valid, the error is the one of that
    field, with the record index and the offending value, whatever the later
    fields hold. *)
Theorem parseState_first_invalid_field (s : list Value) (i : Z) (k : nat) :
  (17 <= List.length s)%nat -> In k checked_positions ->
  valid_before k s = true -> field_test k (index s k) = false ->
  parseState s i = (zeroState, Some (field_error k i (index s k))).
Proof. apply first_invalid_field_error. Qed.

Lemma parseState_first_invalid_field_witness :
  parseState (update 8 (VString "yes") (update 15 VNil record_full)) 6
  = (zeroState, Some (ErrInvalidValue "on_ground" 6 (VString "yes"))).
Proof.
  apply (parseState_first_invalid_field
           (update 8 (VString "yes") (update 15 VNil record_full)) 6 8);
    first [reflexivity | simpl; lia | simpl; tauto].
Defined.

Lemma parseState_reports_index (s : list Value) (i : Z) (e : error) :
  snd (parseState s i) = Some e -> error_index e = Some i.
Proof.
  destruct (Nat.ltb_spec (List.length s) 17) as [L|L].
  - rewrite parseState_length_error by now apply Nat.ltb_lt.
    simpl. intros E. inversion E. reflexivity.
  - fields s L. clear L. open_record.
    case_matches; simpl; intros E; inversion E; reflexivity.
Qed.

(** X4. Every error of [parseState] reports the record index it was called with. *)
Theorem parseState_error_index (s : list Value) (i : Z) (e : error) :
  snd (parseState s i) = Some e -> error_index e = Some i.
Proof. apply parseState_reports_index. Qed.

Lemma parseState_error_index_witness :
  error_index (ErrInvalidValue "spi" 5 (VString "invalid_spi")) = Some 5.
Proof.
  apply (parseState_error_index record_invalid_spi 5). reflexivity.
Defined.

Lemma parseState_reindex (s : list Value) (i j : Z) :
  parseState s j
  = (fst (parseState s i), option_map (reindex j) (snd (parseState s i))).
Proof.
  destruct (Nat.ltb_spec (List.length s) 17) as [L|L].
  - rewrite !parseState_length_error by now apply Nat.ltb_lt. reflexivity.
  - fields s L. clear L. open_record.
    case_matches; reflexivity.
Qed.

(** X5. The record index only labels the error: decoding the same record at
    another index gives the same state, and the same error but for the index it
    reports. *)
Theorem parseState_index_only_labels (s : list Value) (i j : Z) :
  parseState s j
  = (fst (parseState s i), option_map (reindex j) (snd (parseState s i))).
Proof. apply parseState_reindex. Qed.

(** X6. Null and empty are one to the decoder: a record with an empty call sign,
    an empty squawk or an empty slice of sensors decodes, state and error alike,
    as the record with null at that position. *)
Theorem parseState_empty_as_null (s : list Value) (i : Z) (k : nat) (v : Value) :
  In (k, v) empty_values ->
  parseState (update k v s) i = parseState (update k VNil s) i.
Proof.
  intros K.
  destruct (Nat.ltb_spec (List.length s) 17) as [L|L].
  - rewrite !parseState_length_error
      by (rewrite update_length; now apply Nat.ltb_lt).
    now rewrite !update_length.
  - fields s L. clear L. unfold empty_values in K.
    simpl in K.
    repeat (destruct K as [K|K]; [inversion K; subst; clear K|]);
      try contradiction;
      cbn [update]; unfold parseState, fail; rewrite !length_check_passes;
      cbn [index nth is_nil as_string as_float64_slice fold_left
           jsonNumberArrayToIntArray];
      case_matches; reflexivity.
Qed.

Lemma parseState_empty_as_null_witness :
  parseState (update 12 (VFloat64Slice []) record_full) 0
  = parseState (update 12 VNil record_full) 0.
Proof.
  apply (parseState_empty_as_null record_full 0 12 (VFloat64Slice [])).
  simpl. tauto.
Defined.

(** ** The batch decoder, on every batch *)

Lemma decodes_at (s : list Value) (i : Z) :
  snd (parseState s i) = None <-> decodes s = true.
Proof.
  unfold decodes. destruct (parseState_index s i 0) as [_ E].
  rewrite E. destruct (snd (parseState s 0)); split; congruence.
Qed.

Lemma parseStates_loop_spec (states : list (list Value)) (i : Z)
    (response : GetStatesResponse) :
  parseStates_loop states i response
  = (mkResponse (respTime response)
       (respStates response
        ++ map (fun s => fst (parseState s 0)) (valid_prefix states)),
     match nth_error states (List.length (valid_prefix states)) with
     | None => None
     | Some bad =>
         snd (parseState bad (i + Z.of_nat (List.length (valid_prefix states))))
     end).
Proof.
  revert i response.
  induction states as [|s states IH]; intros i response.
  - simpl. rewrite app_nil_r. now destruct response.
  - cbn [parseStates_loop valid_prefix].
    destruct (parseState s i) as [st [e|]] eqn:E.
    + assert (D : decodes s = false).
      { destruct (decodes s) eqn:D; [|reflexivity].
        apply (decodes_at s i) in D. rewrite E in D. discriminate. }
      rewrite D. simpl. rewrite app_nil_r, Z.add_0_r, E.
      now destruct response.
    + assert (D : decodes s = true) by (apply (decodes_at s i); now rewrite E).
      rewrite D, IH. cbn [respTime respStates map List.length nth_error].
      destruct (parseState_index s i 0) as [F _]. rewrite E in F.
      simpl in F. rewrite <- F, <- app_assoc. simpl.
      replace (i + 1 + Z.of_nat (List.length (valid_prefix states)))
        with (i + Z.pos (Pos.of_succ_nat (List.length (valid_prefix states))))
        by lia.
      reflexivity.
Qed.

Lemma parseStatesResponse_unfold (rawResponse : unstructuredStateResponse) :
  parseStatesResponse rawResponse
  = (mkResponse (time.Unix (rawTime rawResponse) 0)
       (map (fun s => fst (parseState s 0))
          (valid_prefix (rawStates rawResponse))),
     match
       nth_error (rawStates rawResponse)
         (List.length (valid_prefix (rawStates rawResponse)))
     with
     | None => None
     | Some bad =>
         snd (parseState bad
                (Z.of_nat (List.length (valid_prefix (rawStates rawResponse)))))
     end).
Proof. unfold parseStatesResponse. now rewrite parseStates_loop_spec. Qed.

(** X7. What [parseStatesResponse] returns on every batch: the capture time as a
    [time.Time], the states of the records before the first one that fails, in
    the order of the records, and the error of that record decoded at its own
    position, or no error when there is none. *)
Theorem parseStatesResponse_spec (rawResponse : unstructuredStateResponse) :
  let decoded := valid_prefix (rawStates rawResponse) in
  parseStatesResponse rawResponse
  = (mkResponse (time.Unix (rawTime rawResponse) 0)
       (map (fun s => fst (parseState s 0)) decoded),
     match nth_error (rawStates rawResponse) (List.length decoded) with
     | None => None
     | Some bad => snd (parseState bad (Z.of_nat (List.length decoded)))
     end).
Proof. cbv zeta. apply parseStatesResponse_unfold. Qed.

Lemma valid_prefix_all (states : list (list Value)) :
  forallb decodes states = true -> valid_prefix states = states.
Proof.
  induction states as [|s states IH]; simpl; [reflexivity|].
  intros H. apply andb_true_iff in H. destruct H as [D H].
  rewrite D. now rewrite IH.
Qed.

Lemma valid_prefix_length (states : list (list Value)) :
  (List.length (valid_prefix states) <= List.length states)%nat
  /\ (List.length (valid_prefix states) = List.length states
      <-> forallb decodes states = true).
Proof.
  induction states as [|s states [IHl IHe]]; simpl.
  - split; [lia|]. split; reflexivity.
  - destruct (decodes s); simpl.
    + split; [lia|]. rewrite <- IHe. split; lia.
    + split; [lia|]. split; [lia|discriminate].
Qed.

Lemma valid_prefix_stops (states : list (list Value)) (bad : list Value) :
  nth_error states (List.length (valid_prefix states)) = Some bad ->
  decodes bad = false.
Proof.
  induction states as [|s states IH]; simpl; [discriminate|].
  destruct (decodes s) eqn:D; simpl.
  - exact IH.
  - intros E. inversion E; subst. exact D.
Qed.

Lemma parseStatesResponse_no_error_iff
    (rawResponse : unstructuredStateResponse) :
  snd (parseStatesResponse rawResponse) = None
  <-> forallb decodes (rawStates rawResponse) = true.
Proof.
  rewrite parseStatesResponse_unfold. cbn [snd].
  destruct (valid_prefix_length (rawStates rawResponse)) as [Hl He].
  rewrite <- He.
  destruct (nth_error (rawStates rawResponse)
              (List.length (valid_prefix (rawStates rawResponse))))
    as [bad|] eqn:N.
  - pose proof (valid_prefix_stops _ _ N) as D.
    assert (N' : nth_error (rawStates rawResponse)
                   (List.length (valid_prefix (rawStates rawResponse)))
                 <> None) by congruence.
    apply nth_error_Some in N'.
    split.
    + intros E. apply decodes_at in E. congruence.
    + lia.
  - apply nth_error_None in N. split; [lia|reflexivity].
Qed.

(** X8. The batch decoder returns no error exactly when every record decodes,
    and the response then holds the state of every record, in order. *)
Theorem parseStatesResponse_succeeds_iff
    (rawResponse : unstructuredStateResponse) :
  (snd (parseStatesResponse rawResponse) = None
   <-> forallb decodes (rawStates rawResponse) = true)
  /\ (snd (parseStatesResponse rawResponse) = None ->
      respStates (fst (parseStatesResponse rawResponse))
      = map (fun s => fst (parseState s 0)) (rawStates rawResponse)).
Proof.
  split; [apply parseStatesResponse_no_error_iff|].
  intros E. apply parseStatesResponse_no_error_iff in E.
  rewrite parseStatesResponse_unfold. cbn [fst respStates].
  now rewrite valid_prefix_all.
Qed.

Lemma parseStatesResponse_succeeds_iff_witness :
  respStates
    (fst (parseStatesResponse (mkRawResponse 7 [record_sparse; record_full])))
  = map (fun s => fst (parseState s 0)) [record_sparse; record_full].
Proof.
  apply (parseStatesResponse_succeeds_iff
           (mkRawResponse 7 [record_sparse; record_full])).
  reflexivity.
Defined.

(** X9. The response never holds more states than the batch has records, and
    holds as many exactly when there is no error. *)
Theorem parseStatesResponse_count (rawResponse : unstructuredStateResponse) :
  let result := parseStatesResponse rawResponse in
  (List.length (respStates (fst result))
   <= List.length (rawStates rawResponse))%nat
  /\ (List.length (respStates (fst result))
      = List.length (rawStates rawResponse)
      <-> snd result = None).
Proof.
  cbv zeta.
  rewrite parseStatesResponse_no_error_iff, parseStatesResponse_unfold.
  cbn [fst respStates]. rewrite length_map.
  apply valid_prefix_length.
Qed.

(** X10. The index an error of the batch decoder reports is the position of the
    failing record, which is also the number of states in the response returned
    with it. *)
Theorem parseStatesResponse_error_index
    (rawResponse : unstructuredStateResponse) (e : error) :
  snd (parseStatesResponse rawResponse) = Some e ->
  error_index e
  = Some (Z.of_nat
            (List.length (respStates (fst (parseStatesResponse rawResponse)))))
  /\ (List.length (respStates (fst (parseStatesResponse rawResponse)))
      < List.length (rawStates rawResponse))%nat.
Proof.
  rewrite parseStatesResponse_unfold. cbn [fst snd respStates].
  rewrite length_map.
  destruct (nth_error (rawStates rawResponse)
              (List.length (valid_prefix (rawStates rawResponse))))
    as [bad|] eqn:N; [|discriminate].
  intros E. split.
  - now apply (parseState_reports_index bad).
  - apply nth_error_Some. congruence.
Qed.

Lemma parseStatesResponse_error_index_witness :
  error_index (ErrInvalidValue "spi" 2 (VString "invalid_spi")) = Some 2
  /\ (2 < 4)%nat.
Proof.
  apply (parseStatesResponse_error_index
           (mkRawResponse 0
              [record_full; record_sparse; record_invalid_spi; record_full])).
  reflexivity.
Defined.


(** ** Timestamps built from epoch seconds *)

Lemma newUnixTime_ext (sec : Z) :
  Time (newUnixTime sec)
  = time.mkTime 0 (wrap64 (sec + time.unixToInternal)) (Some time.Local).
Proof. reflexivity. Qed.

Lemma wrap64_shift_injective (a b c : Z) :
  in_int64 a = true -> in_int64 b = true ->
  wrap64 (a + c) = wrap64 (b + c) -> a = b.
Proof.
  unfold in_int64, int64_min, int64_max, wrap64.
  intros Ha Hb E.
  apply andb_true_iff in Ha, Hb. destruct Ha as [Ha1 Ha2], Hb as [Hb1 Hb2].
  apply Z.leb_le in Ha1, Ha2, Hb1, Hb2.
  assert (M : (a + c + 2 ^ 63) mod 2 ^ 64 = (b + c + 2 ^ 63) mod 2 ^ 64)
    by lia.
  assert (D : (a - b) mod 2 ^ 64 = 0).
  { replace (a - b) with ((a + c + 2 ^ 63) - (b + c + 2 ^ 63)) by ring.
    rewrite Zminus_mod, M, Z.sub_diag. reflexivity. }
  apply Z.mod_divide in D; [|lia].
  destruct D as [q D].
  assert (q = 0) by nia. lia.
Qed.

(** X11. A timestamp built by [newUnixTime] from any 64-bit second count carries
    no nanoseconds, gives the second count back through [Unix()], and is the
    timestamp [newUnixTimeP] points to. *)
Theorem newUnixTime_round_trip (sec : Z) :
  in_int64 sec = true ->
  time.Time_Unix (Time (newUnixTime sec)) = sec
  /\ time.nsec (Time (newUnixTime sec)) = 0
  /\ newUnixTimeP sec = Some (newUnixTime sec).
Proof.
  intros H. split; [now apply Time_Unix_newUnixTime|split; reflexivity].
Qed.

Lemma newUnixTime_round_trip_witness :
  time.Time_Unix (Time (newUnixTime (-1624891429))) = -1624891429
  /\ time.nsec (Time (newUnixTime (-1624891429))) = 0
  /\ newUnixTimeP (-1624891429) = Some (newUnixTime (-1624891429)).
Proof.
  apply (newUnixTime_round_trip (-1624891429)). reflexivity.
Defined.

(** X12. Two timestamps built by [newUnixTime] from 64-bit second counts are the
    same instant for [Equal] exactly when the second counts are equal: no two
    second counts collide, wrap-around included. *)
Theorem newUnixTime_Equal_iff (a b : Z) :
  in_int64 a = true -> in_int64 b = true ->
  (time.Equal (Time (newUnixTime a)) (Time (newUnixTime b)) = true <-> a = b).
Proof.
  intros Ha Hb. rewrite !newUnixTime_ext.
  unfold time.Equal, time.sec, time.nsec. cbn [time.ext time.wall].
  rewrite Z.eqb_refl, andb_true_r, Z.eqb_eq.
  split.
  - now apply wrap64_shift_injective.
  - now intros ->.
Qed.

Lemma newUnixTime_Equal_iff_witness :
  time.Equal (Time (newUnixTime int64_max)) (Time (newUnixTime int64_min))
  = true
  <-> int64_max = int64_min.
Proof.
  apply (newUnixTime_Equal_iff int64_max int64_min); reflexivity.
Defined.

(** X13. Among the 64-bit second counts exactly one, the count of January 1 of
    year 1, gives a timestamp for which [IsZero] holds. *)
Theorem newUnixTime_IsZero_iff (sec : Z) :
  in_int64 sec = true ->
  (time.IsZero (Time (newUnixTime sec)) = true <-> sec = -62135596800).
Proof.
  intros H. rewrite newUnixTime_ext.
  unfold time.IsZero, time.sec, time.nsec. cbn [time.ext time.wall].
  rewrite Z.eqb_refl, andb_true_r, Z.eqb_eq.
  split.
  - intros E.
    apply (wrap64_shift_injective sec (-62135596800) time.unixToInternal);
      [assumption|reflexivity|].
    rewrite E. reflexivity.
  - intros ->. reflexivity.
Qed.

Lemma newUnixTime_IsZero_iff_witness :
  time.IsZero (Time (newUnixTime 0)) = true <-> 0 = -62135596800.
Proof.
  apply (newUnixTime_IsZero_iff 0). reflexivity.
Defined.

(** ** Timestamps decoded from JSON literals *)

Lemma byte_of_range (a : ascii) : 0 <= strconv.byte_of a < 256.
Proof.
  unfold strconv.byte_of.
  pose proof (N_ascii_bounded a) as B. lia.
Qed.

Lemma is_digit_range (a : ascii) :
  is_digit a = true -> 0 <= strconv.byte_of a - 48 <= 9.
Proof.
  unfold is_digit. intros H. apply andb_true_iff in H.
  destruct H as [H1 H2]. apply Z.leb_le in H1, H2. lia.
Qed.

Lemma digits_value_from_le (s : string) (acc : Z) :
  all_digits s = true -> 0 <= acc -> acc <= digits_value_from s acc.
Proof.
  revert acc. induction s as [|a s IH]; intros acc D A; simpl in *; [lia|].
  apply andb_true_iff in D. destruct D as [Da Ds].
  pose proof (is_digit_range a Da).
  specialize (IH (acc * 10 + (strconv.byte_of a - 48)) Ds). lia.
Qed.

Lemma cutoff_value : strconv.maxUint64 / 10 + 1 = 1844674407370955162.
Proof. reflexivity. Qed.

Lemma maxUint64_value : strconv.maxUint64 = 18446744073709551615.
Proof. reflexivity. Qed.

(** One round of the digit loop on a digit. *)
Lemma ParseUint_loop_digit (a : ascii) (rest : string) (n : Z) :
  is_digit a = true -> 0 <= n <= strconv.maxUint64 ->
  strconv.ParseUint_loop (String a rest) n
  = if n * 10 + (strconv.byte_of a - 48) <=? strconv.maxUint64
    then strconv.ParseUint_loop rest (n * 10 + (strconv.byte_of a - 48))
    else (strconv.maxUint64, Some strconv.ErrRange).
Proof.
  intros D N. pose proof (is_digit_range a D) as R.
  cbn [strconv.ParseUint_loop]. unfold is_digit in D. rewrite D.
  rewrite cutoff_value. rewrite maxUint64_value in *.
  change (2 ^ 64) with 18446744073709551616.
  destruct (Z.leb_spec 10 (strconv.byte_of a - 48)); [lia|].
  destruct (Z.leb_spec 1844674407370955162 n).
  - destruct (Z.leb_spec (n * 10 + (strconv.byte_of a - 48))
                18446744073709551615); [lia|reflexivity].
  - rewrite (Z.mod_small (n * 10)) by lia.
    destruct (Z.leb_spec (n * 10 + (strconv.byte_of a - 48))
                18446744073709551615).
    + rewrite Z.mod_small by lia.
      destruct (Z.ltb_spec (n * 10 + (strconv.byte_of a - 48)) (n * 10));
        [lia|].
      destruct (Z.ltb_spec 18446744073709551615
                  (n * 10 + (strconv.byte_of a - 48))); [lia|].
      reflexivity.
    + assert (E : (n * 10 + (strconv.byte_of a - 48)) mod 18446744073709551616
                  = n * 10 + (strconv.byte_of a - 48) - 18446744073709551616).
      { symmetry. apply Z.mod_unique with (q := 1); lia. }
      rewrite E.
      destruct (Z.ltb_spec
                  (n * 10 + (strconv.byte_of a - 48) - 18446744073709551616)
                  (n * 10)); [reflexivity|lia].
Qed.

(** One round of the digit loop on a byte that is no digit. *)
Lemma ParseUint_loop_other (a : ascii) (rest : string) (n : Z) :
  is_digit a = false ->
  strconv.ParseUint_loop (String a rest) n = (0, Some strconv.ErrSyntax).
Proof.
  intros D. cbn [strconv.ParseUint_loop]. unfold is_digit in D. rewrite D.
  destruct ((97 <=? strconv.lower (strconv.byte_of a))
            && (strconv.lower (strconv.byte_of a) <=? 122)) eqn:El;
    [|reflexivity].
  assert (Eb : (10 <=? strconv.lower (strconv.byte_of a) - 97 + 10) = true).
  { apply andb_true_iff in El. destruct El as [El _].
    apply Z.leb_le in El. apply Z.leb_le. lia. }
  now rewrite Eb.
Qed.

Lemma ParseUint_loop_fits (s : string) (n : Z) :
  all_digits s = true -> 0 <= n ->
  digits_value_from s n <= strconv.maxUint64 ->
  strconv.ParseUint_loop s n = (digits_value_from s n, None).
Proof.
  revert n. induction s as [|a s IH]; intros n D N F; [reflexivity|].
  simpl in D, F. apply andb_true_iff in D. destruct D as [Da Ds].
  pose proof (is_digit_range a Da) as R.
  pose proof (digits_value_from_le s (n * 10 + (strconv.byte_of a - 48)) Ds)
    as M.
  rewrite ParseUint_loop_digit by (auto; lia).
  destruct (Z.leb_spec (n * 10 + (strconv.byte_of a - 48))
              strconv.maxUint64); [|lia].
  simpl. apply IH; auto; lia.
Qed.

Lemma ParseUint_loop_overflow (s : string) (n : Z) :
  all_digits s = true -> 0 <= n <= strconv.maxUint64 ->
  strconv.maxUint64 < digits_value_from s n ->
  strconv.ParseUint_loop s n = (strconv.maxUint64, Some strconv.ErrRange).
Proof.
  revert n. induction s as [|a s IH]; intros n D N F; [simpl in F; lia|].
  simpl in D, F. apply andb_true_iff in D. destruct D as [Da Ds].
  pose proof (is_digit_range a Da) as R.
  rewrite ParseUint_loop_digit by auto.
  destruct (Z.leb_spec (n * 10 + (strconv.byte_of a - 48))
              strconv.maxUint64); [|reflexivity].
  apply IH; auto; lia.
Qed.

Lemma ParseUint_loop_bad (s : string) (n : Z) :
  all_digits s = false -> 0 <= n <= strconv.maxUint64 ->
  strconv.ParseUint_loop s n = (0, Some strconv.ErrSyntax)
  \/ strconv.ParseUint_loop s n = (strconv.maxUint64, Some strconv.ErrRange).
Proof.
  revert n. induction s as [|a s IH]; intros n D N; [discriminate|].
  simpl in D. destruct (is_digit a) eqn:Da; simpl in D.
  - pose proof (is_digit_range a Da) as R.
    rewrite ParseUint_loop_digit by auto.
    destruct (Z.leb_spec (n * 10 + (strconv.byte_of a - 48))
                strconv.maxUint64); [|now right].
    apply IH; auto; lia.
  - left. now apply ParseUint_loop_other.
Qed.

Lemma ParseUint_digits (s : string) :
  s <> EmptyString -> all_digits s = true ->
  strconv.ParseUint s
  = if digits_value s <=? strconv.maxUint64
    then (digits_value s, None)
    else (strconv.maxUint64, Some (strconv.rangeError "ParseUint" s)).
Proof.
  intros E D. unfold strconv.ParseUint, digits_value.
  destruct s as [|a s]; [contradiction|].
  destruct (Z.leb_spec (digits_value_from (String a s) 0) strconv.maxUint64).
  - rewrite ParseUint_loop_fits by (auto; lia). reflexivity.
  - rewrite ParseUint_loop_overflow; auto. rewrite maxUint64_value. lia.
Qed.

Lemma ParseUint_bad (s : string) :
  all_digits s = false ->
  strconv.ParseUint s = (0, Some (strconv.syntaxError "ParseUint" s))
  \/ strconv.ParseUint s
     = (strconv.maxUint64, Some (strconv.rangeError "ParseUint" s)).
Proof.
  intros D. unfold strconv.ParseUint.
  destruct s as [|a s]; [discriminate|].
  destruct (ParseUint_loop_bad (String a s) 0 D) as [E|E];
    [rewrite maxUint64_value; lia|rewrite E; now left|rewrite E; now right].
Qed.

Lemma digits_value_nonneg (s : string) :
  all_digits s = true -> 0 <= digits_value s.
Proof. intros D. apply (digits_value_from_le s 0 D). lia. Qed.

Lemma wrap64_small (z : Z) : in_int64 z = true -> wrap64 z = z.
Proof.
  unfold in_int64, int64_min, int64_max, wrap64. intros H.
  apply andb_true_iff in H. destruct H as [H1 H2].
  apply Z.leb_le in H1, H2. rewrite Z.mod_small by lia. lia.
Qed.

Lemma wrap64_negated (v : Z) :
  0 <= v <= 2 ^ 63 -> wrap64 (- wrap64 v) = - v.
Proof.
  intros H. destruct (Z.eq_dec v (2 ^ 63)) as [->|N]; [reflexivity|].
  rewrite (wrap64_small v).
  - apply wrap64_small. unfold in_int64, int64_min, int64_max.
    apply andb_true_iff. split; apply Z.leb_le; lia.
  - unfold in_int64, int64_min, int64_max.
    apply andb_true_iff. split; apply Z.leb_le; lia.
Qed.

(** Case analysis on every integer comparison of the goal. *)
Ltac case_comparisons :=
  repeat match goal with
         | |- context [(?x <=? ?y)] => destruct (Z.leb_spec x y)
         | |- context [(?x <? ?y)] => destruct (Z.ltb_spec x y)
         end.

(** [ParseInt] on a decimal literal. *)
Lemma ParseInt_literal (raw : string) :
  is_decimal_literal raw = true ->
  strconv.ParseInt raw
  = if in_int64 (literal_value raw)
    then (literal_value raw, None)
    else (if is_negative raw then - 2 ^ 63 else 2 ^ 63 - 1,
          Some (strconv.rangeError "ParseInt" raw)).
Proof.
  unfold is_decimal_literal, literal_value. intros L.
  destruct raw as [|a rest]; [discriminate|].
  unfold strconv.ParseInt.
  cbn [unsigned_part is_negative] in *.
  set (body := if Ascii.eqb a "+" || Ascii.eqb a "-"
               then rest else String a rest) in *.
  assert (B : body <> EmptyString) by (destruct body; congruence).
  assert (D : all_digits body = true) by (destruct body; congruence).
  pose proof (digits_value_nonneg body D) as P.
  rewrite (ParseUint_digits body B D).
  unfold in_int64, int64_min, int64_max, strconv.rangeError.
  rewrite maxUint64_value.
  destruct (Ascii.eqb a "-");
    case_comparisons; cbn [negb andb]; try lia; try reflexivity;
    f_equal;
    first [ apply (wrap64_negated (digits_value body)); lia
          | apply (wrap64_small (digits_value body));
            unfold in_int64, int64_min, int64_max;
            apply andb_true_iff; split; apply Z.leb_le; lia ].
Qed.

(** [ParseInt] on anything else. *)
Lemma ParseInt_not_literal (raw : string) :
  is_decimal_literal raw = false ->
  exists n err, strconv.ParseInt raw = (n, Some err).
Proof.
  unfold is_decimal_literal. intros L.
  destruct raw as [|a rest]; [simpl; eauto|].
  unfold strconv.ParseInt.
  cbn [unsigned_part] in L.
  set (body := if Ascii.eqb a "+" || Ascii.eqb a "-"
               then rest else String a rest) in *.
  destruct body as [|b body'] eqn:Eb.
  - simpl. eauto.
  - destruct (ParseUint_bad (String b body') L) as [E|E]; rewrite E.
    + simpl. eauto.
    + unfold strconv.rangeError at 1.
      destruct (Ascii.eqb a "-"); simpl; eauto.
Qed.

Lemma literal_not_null (raw : string) :
  is_decimal_literal raw = true -> String.eqb raw "null" = false.
Proof.
  intros L. apply String.eqb_neq. intros ->. discriminate.
Qed.

Lemma UnmarshalJSON_literal (t : UnixTime) (raw : string) :
  is_decimal_literal raw = true ->
  UnmarshalJSON t raw
  = if in_int64 (literal_value raw)
    then (newUnixTime (literal_value raw), None)
    else (t, Some (strconv.rangeError "ParseInt" raw)).
Proof.
  intros L. unfold UnmarshalJSON.
  rewrite (literal_not_null raw L), (ParseInt_literal raw L).
  destruct (in_int64 (literal_value raw)); reflexivity.
Qed.

Lemma UnmarshalJSON_not_literal (t : UnixTime) (raw : string) :
  String.eqb raw "null" = false -> is_decimal_literal raw = false ->
  exists err, UnmarshalJSON t raw = (t, Some err).
Proof.
  intros N L. unfold UnmarshalJSON. rewrite N.
  destruct (ParseInt_not_literal raw L) as (n & err & E).
  rewrite E. eauto.
Qed.

(** X14. [UnmarshalJSON] accepts the literal null and the decimal literals (an
    optional sign and digits, nothing else) whose value fits 64 bits, and
    nothing else: not a number with a fraction or an exponent, not a quoted
    number, not the empty input. *)
Theorem UnmarshalJSON_accepts_iff (t : UnixTime) (raw : string) :
  snd (UnmarshalJSON t raw) = None
  <-> raw = "null"
      \/ (is_decimal_literal raw = true /\ in_int64 (literal_value raw) = true).
Proof.
  destruct (String.eqb raw "null") eqn:N.
  - apply String.eqb_eq in N. subst raw. split; [now left|reflexivity].
  - destruct (is_decimal_literal raw) eqn:L.
    + rewrite (UnmarshalJSON_literal t raw L).
      destruct (in_int64 (literal_value raw)); simpl.
      * split; [now right|reflexivity].
      * split; [discriminate|].
        intros [->|[_ H]]; discriminate.
    + destruct (UnmarshalJSON_not_literal t raw N L) as [err E].
      rewrite E. simpl. split; [discriminate|].
      intros [->|[H _]]; discriminate.
Qed.

(** X15. A decimal literal whose value fits 64 bits decodes to the timestamp of
    that second count, whatever the receiver held, and [Unix()] of the result is
    the value of the literal. *)
Theorem UnmarshalJSON_decimal_literal (t : UnixTime) (raw : string) :
  is_decimal_literal raw = true -> in_int64 (literal_value raw) = true ->
  UnmarshalJSON t raw = (newUnixTime (literal_value raw), None)
  /\ time.Time_Unix (Time (fst (UnmarshalJSON t raw))) = literal_value raw.
Proof.
  intros L R. rewrite (UnmarshalJSON_literal t raw L), R.
  split; [reflexivity|]. now apply Time_Unix_newUnixTime.
Qed.

Lemma UnmarshalJSON_decimal_literal_witness :
  UnmarshalJSON (newUnixTime 7) "-0042"
  = (newUnixTime (literal_value "-0042"), None)
  /\ time.Time_Unix (Time (fst (UnmarshalJSON (newUnixTime 7) "-0042")))
     = literal_value "-0042".
Proof.
  apply (UnmarshalJSON_decimal_literal (newUnixTime 7) "-0042"); reflexivity.
Defined.

(** X16. A decimal literal whose value does not fit 64 bits is rejected with a
    range error that carries the literal, and the receiver keeps the value it
    held. *)
Theorem UnmarshalJSON_out_of_range (t : UnixTime) (raw : string) :
  is_decimal_literal raw = true -> in_int64 (literal_value raw) = false ->
  UnmarshalJSON t raw = (t, Some (strconv.rangeError "ParseInt" raw)).
Proof.
  intros L R. now rewrite (UnmarshalJSON_literal t raw L), R.
Qed.

Lemma UnmarshalJSON_out_of_range_witness :
  UnmarshalJSON (newUnixTime 7) "9223372036854775808"
  = (newUnixTime 7,
     Some (strconv.rangeError "ParseInt" "9223372036854775808")).
Proof.
  apply (UnmarshalJSON_out_of_range (newUnixTime 7) "9223372036854775808");
    reflexivity.
Defined.

(** ** Batches put end to end *)

Lemma valid_prefix_app (xs ys : list (list Value)) :
  forallb decodes xs = true ->
  valid_prefix (xs ++ ys) = (xs ++ valid_prefix ys)%list.
Proof.
  induction xs as [|x xs IH]; simpl; [reflexivity|].
  intros H. apply andb_true_iff in H. destruct H as [D H].
  rewrite D. now rewrite IH.
Qed.

Lemma parseState_shifted (s : list Value) (i d : Z) :
  snd (parseState s (i + d)) = option_map (shift_index d) (snd (parseState s i)).
Proof.
  rewrite (parseState_reindex s i (i + d)). cbn [snd].
  destruct (snd (parseState s i)) as [e|] eqn:E; [|reflexivity].
  simpl. unfold shift_index.
  now rewrite (parseState_reports_index s i e E).
Qed.

(** X17. Decoding two batches put end to end, the first of which decodes without
    error, gives the states of the first followed by the states of the second,
    and the error of the second, if any, with its index moved by the size of the
    first. *)
Theorem parseStatesResponse_append (t : Z) (xs ys : list (list Value)) :
  forallb decodes xs = true ->
  parseStatesResponse (mkRawResponse t (xs ++ ys))
  = (mkResponse (time.Unix t 0)
       (respStates (fst (parseStatesResponse (mkRawResponse t xs)))
        ++ respStates (fst (parseStatesResponse (mkRawResponse t ys)))),
     option_map (shift_index (Z.of_nat (List.length xs)))
       (snd (parseStatesResponse (mkRawResponse t ys)))).
Proof.
  intros V. rewrite !parseStatesResponse_unfold.
  cbn [rawTime rawStates fst snd respStates].
  rewrite (valid_prefix_app xs ys V), (valid_prefix_all xs V).
  rewrite map_app, length_app.
  rewrite nth_error_app2 by lia.
  replace (List.length xs + List.length (valid_prefix ys) - List.length xs)%nat
    with (List.length (valid_prefix ys)) by lia.
  f_equal.
  destruct (nth_error ys (List.length (valid_prefix ys))) as [bad|];
    [|reflexivity].
  rewrite Nat2Z.inj_add, Z.add_comm.
  apply parseState_shifted.
Qed.

Lemma parseStatesResponse_append_witness :
  parseStatesResponse
    (mkRawResponse 3 ([record_full; record_sparse]
                      ++ [record_sparse; record_invalid_spi]))
  = (mkResponse (time.Unix 3 0)
       (respStates
          (fst (parseStatesResponse
                  (mkRawResponse 3 [record_full; record_sparse])))
        ++ respStates
             (fst (parseStatesResponse
                     (mkRawResponse 3 [record_sparse; record_invalid_spi])))),
     option_map (shift_index 2)
       (snd (parseStatesResponse
               (mkRawResponse 3 [record_sparse; record_invalid_spi])))).
Proof.
  apply (parseStatesResponse_append 3 [record_full; record_sparse]
           [record_sparse; record_invalid_spi]).
  reflexivity.
Defined.

(** ** The serials parameter *)

Lemma append_assoc (a b c : string) : ((a ++ b) ++ c = a ++ (b ++ c))%string.
Proof. induction a as [|x a IH]; simpl; [reflexivity|]. now rewrite IH. Qed.

Lemma append_empty_r (a : string) : (a ++ EmptyString = a)%string.
Proof. induction a as [|x a IH]; simpl; [reflexivity|]. now rewrite IH. Qed.

Lemma serialQuery_loop_join (Sprintf_v : Z -> string) (serials : list Z)
    (i : nat) (acc : string) :
  serials <> [] ->
  serialQuery_loop Sprintf_v serials (S i) acc
  = (acc ++ "," ++ String.concat "," (map Sprintf_v serials))%string.
Proof.
  revert i acc. induction serials as [|s rest IH]; intros i acc N;
    [contradiction|].
  cbn [serialQuery_loop Nat.ltb Nat.leb map].
  destruct rest as [|s' rest'].
  - simpl. now rewrite append_assoc.
  - rewrite IH by discriminate.
    cbn [String.concat map]. now rewrite !append_assoc.
Qed.

(** X18. The loop of [GetOwnStates] that builds the serials parameter joins the
    formatted serial numbers with commas, in order: no comma before the first or
    after the last, and the empty string for no serial at all. *)
Theorem serialQuery_join (Sprintf_v : Z -> string) (serials : list Z) :
  serialQuery Sprintf_v serials = String.concat "," (map Sprintf_v serials).
Proof.
  unfold serialQuery. destruct serials as [|s rest]; [reflexivity|].
  cbn [serialQuery_loop Nat.ltb Nat.leb map].
  destruct rest as [|s' rest']; [reflexivity|].
  rewrite serialQuery_loop_join by discriminate.
  reflexivity.
Qed.
